(** * go-ad-service: cache-aside ad service over MySQL and Redis

    A shallow embedding of the Go sources

      - [internal/ad/repository.go]  (type [Ad], [Repository])
      - [internal/ad/service.go]     ([AdService], the cache-aside logic)
      - the HTTP handlers            ([Handler])
      - [pkg/cache]                  ([Cache], the Redis wrapper)

    Stateful code is written in a state monad over a [World] holding the
    MySQL table, the Redis keyspace, a schedule of backend failures and the
    log of backend calls made so far.  Tracing spans and metrics are
    observability only and are left out. *)

From Stdlib Require Import PrimFloat ZArith Ascii String DecimalString DecimalZ.
From stdpp Require Import base option list gmap strings.

Local Open Scope string_scope.
Local Open Scope list_scope.
Local Open Scope Z_scope.

(** ** Go values *)

(** Go's [error] values that occur in the service.  The three sentinels are
    package variables compared by identity; [fmt_Errorf] is the value built
    by [fmt.Errorf] with the verb [%v], which keeps only the text of the
    error it formats and has no [Unwrap]. *)
Inductive error : Type :=
  | sql_ErrNoRows
  | ErrAdNotFound
  | redis_Nil
  | strconv_ErrSyntax
  | strconv_ErrRange
  | json_SyntaxError
  | backend_error (msg : string)
  | fmt_Errorf (msg : string).

Global Instance error_eq_dec : EqDecision error.
Proof. solve_decision. Defined.

(** [err.Error()] *)
Definition Error (e : error) : string :=
  match e with
  | sql_ErrNoRows => "sql: no rows in result set"
  | ErrAdNotFound => "Ad not found"
  | redis_Nil => "redis: nil"
  | strconv_ErrSyntax => "invalid syntax"
  | strconv_ErrRange => "value out of range"
  | json_SyntaxError => "invalid JSON"
  | backend_error msg => msg
  | fmt_Errorf msg => msg
  end.

(** [errors.Is]: none of the errors above wraps another one, so the chain
    that is searched has the error itself as its only element. *)
Definition errors_Is (err target : error) : bool := bool_decide (err = target).

(** A Go result [(v, err)] in which exactly one side is set. *)
Inductive Result (A : Type) : Type :=
  | Ok (a : A)
  | Err (e : error).
Arguments Ok {A} a.
Arguments Err {A} e.

Global Instance Result_bind : MBind Result :=
  λ A B f r, match r with Ok a => f a | Err e => Err e end.

Definition is_Ok {A} (r : Result A) : bool :=
  match r with Ok _ => true | Err _ => false end.

(** [time.Time], as the number of seconds since Go's zero instant
    (January 1 of year 1, 00:00:00 UTC). *)
Definition Time : Type := Z.
Definition time_zero : Time := 0.
Definition IsZero (t : Time) : bool := t =? time_zero.

(** [time.Duration]: nanoseconds. *)
Definition Duration : Type := Z.
Definition Second : Duration := 1000000000.
Definition Minute : Duration := 60 * Second.
Definition Seconds (d : Duration) : Z := d / Second.

(** Go's [int] on the 64-bit targets the image is built for. *)
Definition min_int : Z := - 2 ^ 63.
Definition max_int : Z := 2 ^ 63 - 1.
Definition wrap_int (z : Z) : Z := (z + 2 ^ 63) mod 2 ^ 64 - 2 ^ 63.

(** [type Ad struct] of repository.go *)
Record Ad : Type := mkAd {
  ID : Z;
  Title : string;
  Description : string;
  Price : float;
  CreatedAt : Time;
  IsActive : bool
}.

(** The zero value of [Ad] ([var ad Ad]). *)
Definition Ad_zero : Ad := mkAd 0 "" "" 0%float time_zero false.

(** ** strconv *)

Definition digit_of (c : ascii) : option Z :=
  let n := Z.of_N (N_of_ascii c) in
  if (48 <=? n) && (n <=? 57) then Some (n - 48) else None.

Fixpoint parse_digits (acc : Z) (s : string) : option Z :=
  match s with
  | EmptyString => Some acc
  | String c rest =>
      match digit_of c with
      | Some d => parse_digits (acc * 10 + d) rest
      | None => None
      end
  end.

Definition is_sign (c : ascii) : bool :=
  Ascii.eqb c "-"%char || Ascii.eqb c "+"%char.

(** [strconv.Atoi]: an optional sign, then one or more decimal digits; the
    value has to fit an [int].  On a range error the nearest bound comes back
    together with the error, on a syntax error 0. *)
Definition Atoi (s : string) : Z * option error :=
  match s with
  | EmptyString => (0, Some strconv_ErrSyntax)
  | String c rest =>
      let body := if is_sign c then rest else s in
      match body with
      | EmptyString => (0, Some strconv_ErrSyntax)
      | _ =>
          match parse_digits 0 body with
          | None => (0, Some strconv_ErrSyntax)
          | Some n =>
              let v := if Ascii.eqb c "-"%char then - n else n in
              if v <? min_int then (min_int, Some strconv_ErrRange)
              else if max_int <? v then (max_int, Some strconv_ErrRange)
              else (v, None)
          end
      end
  end.

(** [strconv.Itoa]: the decimal rendering, with a leading minus sign for
    negative numbers and no leading zeros. *)
Definition Itoa (n : Z) : string := NilZero.string_of_int (Z.to_int n).

(** ** SQL values and backend calls *)

Inductive SqlValue : Type :=
  | VInt (n : Z)
  | VString (s : string)
  | VFloat (f : float)
  | VBool (b : bool)
  | VTime (t : Time).

(** [sql.Result]: both accessors return a value and an error. *)
Record sql_Result : Type := mkResult {
  LastInsertId : Result Z;
  RowsAffected : Result Z
}.

(** One call made to a backend. *)
Inductive Event : Type :=
  | EvRedisGet (key : string)
  | EvRedisSet (key value : string) (expiration : Duration)
  | EvRedisDel (key : string)
  | EvSqlExec (query : string) (args : list SqlValue)
  | EvSqlQuery (query : string) (args : list SqlValue).

Definition is_cache_event (e : Event) : bool :=
  match e with
  | EvRedisGet _ | EvRedisSet _ _ _ | EvRedisDel _ => true
  | _ => false
  end.

Definition is_store_event (e : Event) : bool := negb (is_cache_event e).

(** ** The world: MySQL, Redis and their failures *)

(** Modelled from the spec: the [ads] table.  The migration that creates it
    (internal/database/migrations/init.sql) is not among the sources; by the
    spec it has the columns id (auto-increment primary key), title,
    description, price, created_at (server-assigned default) and is_active.
    [now] is the server clock that fills created_at. *)
Record DB : Type := mkDB {
  rows : gmap Z Ad;
  auto_increment : Z;
  now : Time
}.

(** A backend call consumes the head of its failure schedule: [Some msg]
    makes that call fail with [backend_error msg] and leaves the backend as
    it was; [None], and an exhausted schedule, let the call through. *)
Record World : Type := mkWorld {
  mysql : DB;
  redis : gmap string (string * Duration);
  mysql_faults : list (option string);
  redis_faults : list (option string);
  trace : list Event
}.

(** The world at service start: an empty table whose first id is 1, an empty
    keyspace, and the failures that are going to happen. *)
Definition initial_world (clock : Time) (mf rf : list (option string)) : World :=
  mkWorld (mkDB ∅ 1 clock) ∅ mf rf [].

Definition M (A : Type) : Type := World → A * World.

Global Instance M_ret : MRet M := λ A a w, (a, w).
Global Instance M_bind : MBind M :=
  λ A B f m w, let '(a, w') := m w in f a w'.

Definition log (e : Event) : M unit :=
  λ w, (tt, mkWorld (mysql w) (redis w) (mysql_faults w) (redis_faults w)
                    (trace w ++ [e])).

Definition next_fault (schedule : list (option string)) : option string :=
  match schedule with
  | f :: _ => f
  | [] => None
  end.

Definition mysql_fault : M (option string) :=
  λ w, (next_fault (mysql_faults w),
        mkWorld (mysql w) (redis w) (tail (mysql_faults w)) (redis_faults w) (trace w)).

Definition redis_fault : M (option string) :=
  λ w, (next_fault (redis_faults w),
        mkWorld (mysql w) (redis w) (mysql_faults w) (tail (redis_faults w)) (trace w)).

Definition get_mysql : M DB := λ w, (mysql w, w).
Definition put_mysql (d : DB) : M unit :=
  λ w, (tt, mkWorld d (redis w) (mysql_faults w) (redis_faults w) (trace w)).
Definition get_redis : M (gmap string (string * Duration)) := λ w, (redis w, w).
Definition put_redis (r : gmap string (string * Duration)) : M unit :=
  λ w, (tt, mkWorld (mysql w) r (mysql_faults w) (redis_faults w) (trace w)).

(** ** Redis client *)

Module redis_Client.

(** [GET key]: the value, or [redis.Nil] when the key is absent. *)
Definition Get (key : string) : M (string * option error) :=
  _ ← log (EvRedisGet key);
  f ← redis_fault;
  match f with
  | Some msg => mret ("", Some (backend_error msg))
  | None =>
      r ← get_redis;
      match r !! key with
      | Some (value, _) => mret (value, None)
      | None => mret ("", Some redis_Nil)
      end
  end.

(** [SET key value EX expiration] *)
Definition Set_ (key value : string) (expiration : Duration) : M (option error) :=
  _ ← log (EvRedisSet key value expiration);
  f ← redis_fault;
  match f with
  | Some msg => mret (Some (backend_error msg))
  | None =>
      r ← get_redis;
      _ ← put_redis (<[key := (value, expiration)]> r);
      mret None
  end.

(** [DEL key] *)
Definition Del (key : string) : M (option error) :=
  _ ← log (EvRedisDel key);
  f ← redis_fault;
  match f with
  | Some msg => mret (Some (backend_error msg))
  | None =>
      r ← get_redis;
      _ ← put_redis (delete key r);
      mret None
  end.

End redis_Client.

(** ** MySQL: the statements the repository sends *)

Inductive Column : Type :=
  | col_id | col_title | col_description | col_price | col_created_at | col_is_active.

Inductive Direction : Type := Asc | Desc.

Inductive Stmt : Type :=
  | StInsert
  | StSelectCreatedAt
  | StUpdate (with_is_active : bool)
  | StSelectPage (c : Column) (d : Direction)
  | StSelectById
  | StDelete.

Definition column_name (c : Column) : string :=
  match c with
  | col_id => "id"
  | col_title => "title"
  | col_description => "description"
  | col_price => "price"
  | col_created_at => "created_at"
  | col_is_active => "is_active"
  end.

Definition direction_name (d : Direction) : string :=
  match d with Asc => "asc" | Desc => "desc" end.

Definition all_columns : list Column :=
  [col_id; col_title; col_description; col_price; col_created_at; col_is_active].

Definition page_statement (c : Column) (d : Direction) : string * Stmt :=
  ("SELECT id, title, description, price, created_at, is_active FROM ads ORDER BY "
     +:+ column_name c +:+ " " +:+ direction_name d +:+ " LIMIT ? OFFSET ?",
   StSelectPage c d).

(** The statement texts the server recognises.  Any other text is answered
    with a syntax error: the model covers the statements of repository.go
    and nothing else of SQL. *)
Definition statements : list (string * Stmt) :=
  [ ("INSERT INTO ads (title, description, price, is_active) VALUES (?, ?, ?, ?)",
     StInsert);
    ("SELECT created_at FROM ads WHERE id = ?", StSelectCreatedAt);
    ("UPDATE ads SET title = ?, description = ?, price = ? WHERE id = ?",
     StUpdate false);
    ("UPDATE ads SET title = ?, description = ?, price = ?, is_active = ? WHERE id = ?",
     StUpdate true);
    ("SELECT id, title, description, price, created_at, is_active FROM ads WHERE id = ?",
     StSelectById);
    ("DELETE FROM ads WHERE id = ?", StDelete) ]
  ++ ((λ c, page_statement c Asc) <$> all_columns)
  ++ ((λ c, page_statement c Desc) <$> all_columns).


Fixpoint lookup_statement (q : string) (l : list (string * Stmt)) : option Stmt :=
  match l with
  | [] => None
  | (text, st) :: l' => if String.eqb q text then Some st else lookup_statement q l'
  end.

Definition parse_sql (q : string) : option Stmt := lookup_statement q statements.

Definition syntax_error : error :=
  backend_error "Error 1064: You have an error in your SQL syntax".

(** *** Ordering and paging *)

Definition row_leb (c : Column) (a b : Ad) : bool :=
  match c with
  | col_id => ID a <=? ID b
  | col_title => String.leb (Title a) (Title b)
  | col_description => String.leb (Description a) (Description b)
  | col_price => PrimFloat.leb (Price a) (Price b)
  | col_created_at => CreatedAt a <=? CreatedAt b
  | col_is_active => implb (IsActive a) (IsActive b)
  end.

Definition order_leb (c : Column) (d : Direction) (a b : Ad) : bool :=
  match d with Asc => row_leb c a b | Desc => row_leb c b a end.

Fixpoint insert_by (leb : Ad → Ad → bool) (x : Ad) (l : list Ad) : list Ad :=
  match l with
  | [] => [x]
  | y :: l' => if leb x y then x :: l else y :: insert_by leb x l'
  end.

Definition sort_by (leb : Ad → Ad → bool) (l : list Ad) : list Ad :=
  foldr (insert_by leb) [] l.

(** The rows in primary-key order. *)
Definition table_scan (d : DB) : list Ad :=
  sort_by (row_leb col_id) ((map_to_list (rows d)).*2).

Definition row_values (a : Ad) : list SqlValue :=
  [VInt (ID a); VString (Title a); VString (Description a); VFloat (Price a);
   VTime (CreatedAt a); VBool (IsActive a)].

(** *** Statements that change the table *)

(** An UPDATE reports the rows it changed, not the rows its WHERE clause
    matched: the DSN of database.Connect does not ask for found rows. *)
Definition same_columns (a b : Ad) : bool :=
  String.eqb (Title a) (Title b) && String.eqb (Description a) (Description b)
  && PrimFloat.eqb (Price a) (Price b) && Bool.eqb (IsActive a) (IsActive b).

Definition mysql_update (id : Z) (new : Ad → Ad) (d : DB) : sql_Result * DB :=
  match rows d !! id with
  | None => (mkResult (Ok 0) (Ok 0), d)
  | Some old =>
      if same_columns old (new old) then (mkResult (Ok 0) (Ok 0), d)
      else (mkResult (Ok 0) (Ok 1),
            mkDB (<[id := new old]> (rows d)) (auto_increment d) (now d))
  end.

Definition mysql_exec (q : string) (args : list SqlValue) (d : DB)
  : Result (sql_Result * DB) :=
  match parse_sql q, args with
  | Some StInsert, [VString title; VString description; VFloat price; VBool is_active] =>
      let id := auto_increment d in
      Ok (mkResult (Ok id) (Ok 1),
          mkDB (<[id := mkAd id title description price (now d) is_active]> (rows d))
               (id + 1) (now d))
  | Some (StUpdate false), [VString title; VString description; VFloat price; VInt id] =>
      Ok (mysql_update id
            (λ old, mkAd (ID old) title description price (CreatedAt old) (IsActive old)) d)
  | Some (StUpdate true),
    [VString title; VString description; VFloat price; VBool is_active; VInt id] =>
      Ok (mysql_update id
            (λ old, mkAd (ID old) title description price (CreatedAt old) is_active) d)
  | Some StDelete, [VInt id] =>
      match rows d !! id with
      | None => Ok (mkResult (Ok 0) (Ok 0), d)
      | Some _ =>
          Ok (mkResult (Ok 0) (Ok 1),
              mkDB (delete id (rows d)) (auto_increment d) (now d))
      end
  | _, _ => Err syntax_error
  end.

(** *** Statements that read the table *)

Definition mysql_query (q : string) (args : list SqlValue) (d : DB)
  : Result (list (list SqlValue)) :=
  match parse_sql q, args with
  | Some StSelectCreatedAt, [VInt id] =>
      match rows d !! id with
      | Some a => Ok [[VTime (CreatedAt a)]]
      | None => Ok []
      end
  | Some StSelectById, [VInt id] =>
      match rows d !! id with
      | Some a => Ok [row_values a]
      | None => Ok []
      end
  | Some (StSelectPage c dir), [VInt limit; VInt offset] =>
      if (limit <? 0) || (offset <? 0) then Err syntax_error
      else Ok (row_values <$>
                 take (Z.to_nat limit)
                      (drop (Z.to_nat offset) (sort_by (order_leb c dir) (table_scan d))))
  | _, _ => Err syntax_error
  end.

Global Arguments mysql_exec : simpl never.
Global Arguments mysql_query : simpl never.

(** ** database/sql *)

Module sql_DB.

(** [ExecContext] *)
Definition ExecContext (query : string) (args : list SqlValue) : M (Result sql_Result) :=
  _ ← log (EvSqlExec query args);
  f ← mysql_fault;
  match f with
  | Some msg => mret (Err (backend_error msg))
  | None =>
      d ← get_mysql;
      match mysql_exec query args d with
      | Ok (result, d') => _ ← put_mysql d'; mret (Ok result)
      | Err err => mret (Err err)
      end
  end.

(** [QueryContext]: the rows of the result set. *)
Definition QueryContext (query : string) (args : list SqlValue)
  : M (Result (list (list SqlValue))) :=
  _ ← log (EvSqlQuery query args);
  f ← mysql_fault;
  match f with
  | Some msg => mret (Err (backend_error msg))
  | None => d ← get_mysql; mret (mysql_query query args d)
  end.

(** [QueryRowContext] is [QueryContext] with the error kept for [Scan]. *)
Definition QueryRowContext := QueryContext.

(** [Row.Scan]: the deferred error, [sql.ErrNoRows] without a row, or
    the columns of the first row. *)
Definition Row_columns (r : Result (list (list SqlValue))) : Result (list SqlValue) :=
  match r with
  | Err err => Err err
  | Ok [] => Err sql_ErrNoRows
  | Ok (cols :: _) => Ok cols
  end.

Definition scan_error : error := backend_error "sql: Scan error".

(** [Scan(&createdAt)] *)
Definition Scan_Time (cols : list SqlValue) : Result Time :=
  match cols with
  | [VTime t] => Ok t
  | _ => Err scan_error
  end.

(** [Scan(&ad.ID, &ad.Title, &ad.Description, &ad.Price, &ad.CreatedAt, &ad.IsActive)] *)
Definition Scan_Ad (cols : list SqlValue) : Result Ad :=
  match cols with
  | [VInt id; VString title; VString description; VFloat price; VTime created_at;
     VBool is_active] => Ok (mkAd id title description price created_at is_active)
  | _ => Err scan_error
  end.

End sql_DB.

(** [err != nil] *)
Definition not_nil (err : option error) : bool :=
  match err with Some _ => true | None => false end.

(** ** pkg/cache: the Redis wrapper *)

Module Cache.

(** [Cache.Get]: a missing key is reported as the empty string without an
    error, any other Redis failure as that error. *)
Definition Get (key : string) : M (string * option error) :=
  '(result, err) ← redis_Client.Get key;
  match err with
  | Some e =>
      if bool_decide (e = redis_Nil) then mret ("", None)
      else mret ("", Some e)
  | None => mret (result, None)
  end.

(** [Cache.Set] *)
Definition Set_ (key value : string) (expiration : Duration) : M (option error) :=
  err ← redis_Client.Set_ key value expiration;
  match err with
  | Some e => mret (Some e)
  | None => mret None
  end.

(** [Cache.Delete] *)
Definition Delete (key : string) : M (option error) :=
  err ← redis_Client.Del key;
  match err with
  | Some e => mret (Some e)
  | None => mret None
  end.

End Cache.

(** ** internal/ad/repository.go *)

Module Repository.

(** [Repository.AddAd] fills [ad.ID] and [ad.CreatedAt] in place; the pair
    is the struct behind the pointer after the call, and the error. *)
Definition AddAd (ad : Ad) : M (Ad * option error) :=
  let query := "INSERT INTO ads (title, description, price, is_active) VALUES (?, ?, ?, ?)" in
  r ← sql_DB.ExecContext query
        [VString (Title ad); VString (Description ad); VFloat (Price ad);
         VBool (IsActive ad)];
  match r with
  | Err err => mret (ad, Some (fmt_Errorf ("could not insert ad: " +:+ Error err)))
  | Ok result =>
      match LastInsertId result with
      | Err err =>
          mret (ad, Some (fmt_Errorf ("could not retrieve last insert ID: " +:+ Error err)))
      | Ok id =>
          let query := "SELECT created_at FROM ads WHERE id = ?" in
          row ← sql_DB.QueryRowContext query [VInt id];
          match sql_DB.Row_columns row ≫= sql_DB.Scan_Time with
          | Err err =>
              mret (ad, Some (fmt_Errorf ("could not retrieve created_at: " +:+ Error err)))
          | Ok createdAt =>
              mret (mkAd id (Title ad) (Description ad) (Price ad) createdAt (IsActive ad),
                    None)
          end
      end
  end.

(** [query[:len(query)-2]] *)
Definition drop_last_two (query : string) : string :=
  String.substring 0 (String.length query - 2) query.

(** [Repository.UpdateAd] *)
Definition UpdateAd (id : Z) (ad : Ad) : M (option error) :=
  let query := "UPDATE ads SET title = ?, description = ?, price = ?, " in
  let params := [VString (Title ad); VString (Description ad); VFloat (Price ad)] in
  let '(query, params) :=
    if IsActive ad
    then (query +:+ "is_active = ?, ", params ++ [VBool (IsActive ad)])
    else (query, params) in
  let query := drop_last_two query in
  let query := query +:+ " WHERE id = ?" in
  let params := params ++ [VInt id] in
  r ← sql_DB.ExecContext query params;
  match r with
  | Err err => mret (Some (fmt_Errorf ("could not update ad: " +:+ Error err)))
  | Ok result =>
      match RowsAffected result with
      | Err err =>
          mret (Some (fmt_Errorf ("could not retrieve affected rows: " +:+ Error err)))
      | Ok rowsAffected =>
          if rowsAffected =? 0 then mret (Some ErrAdNotFound)
          else mret None
      end
  end.

(** The loop [for rows.Next() { ... ads = append(ads, ad) }]: a row that
    does not scan ends it with [nil] and the error. *)
Fixpoint scan_rows (rs : list (list SqlValue)) (ads : list Ad)
  : option (list Ad) * option error :=
  match rs with
  | [] => (Some ads, None)
  | cols :: rs' =>
      match sql_DB.Scan_Ad cols with
      | Err err => (None, Some err)
      | Ok ad => scan_rows rs' (ads ++ [ad])
      end
  end.

(** [Repository.GetAllAds]: a nil slice is [None], [[]Ad{}] is [Some []]. *)
Definition GetAllAds (page limit : Z) (sortBy order : string)
  : M (option (list Ad) * option error) :=
  let offset := wrap_int ((page - 1) * limit) in
  let query :=
    "SELECT id, title, description, price, created_at, is_active FROM ads ORDER BY "
      +:+ sortBy +:+ " " +:+ order +:+ " LIMIT ? OFFSET ?" in
  r ← sql_DB.QueryContext query [VInt limit; VInt offset];
  match r with
  | Err err => mret (None, Some err)
  | Ok rs => mret (scan_rows rs [])
  end.

(** [Repository.GetAdByID] *)
Definition GetAdByID (id : Z) : M (Result Ad) :=
  let query :=
    "SELECT id, title, description, price, created_at, is_active FROM ads WHERE id = ?" in
  row ← sql_DB.QueryRowContext query [VInt id];
  match sql_DB.Row_columns row ≫= sql_DB.Scan_Ad with
  | Err err =>
      if bool_decide (err = sql_ErrNoRows) then mret (Err err)
      else mret (Err err)
  | Ok ad => mret (Ok ad)
  end.

(** [Repository.DeleteAd] *)
Definition DeleteAd (id : Z) : M (option error) :=
  let query := "DELETE FROM ads WHERE id = ?" in
  r ← sql_DB.ExecContext query [VInt id];
  match r with
  | Err err => mret (Some (fmt_Errorf ("could not delete ad: " +:+ Error err)))
  | Ok result =>
      match RowsAffected result with
      | Err err =>
          mret (Some (fmt_Errorf ("could not retrieve affected rows: " +:+ Error err)))
      | Ok rowsAffected =>
          if rowsAffected =? 0 then mret (Some ErrAdNotFound)
          else mret None
      end
  end.

End Repository.

(** ** encoding/json and gin's JSON binding

    The service treats both as black boxes that turn an [Ad] into text and
    text into an [Ad] or an error.  The one fact about them that the
    cache-aside logic relies on is that the empty document does not parse. *)
Class JSON : Type := {
  json_Marshal : Ad → Result string;
  json_Unmarshal : string → Result Ad;
  ShouldBindJSON : string → Result Ad;
  json_Unmarshal_empty : is_Ok (json_Unmarshal "") = false
}.

(** ** internal/ad/service.go *)

Module AdService.
Section with_json.
Context `{JSON}.

(** [AdService.AddAd] *)
Definition AddAd (ad : Ad) : M (Ad * option error) :=
  '(ad, err) ← Repository.AddAd ad;
  match err with
  | Some err => mret (ad, Some err)
  | None => mret (ad, None)
  end.

(** [AdService.GetAllAds] *)
Definition GetAllAds (page limit : Z) (sortBy order : string)
  : M (option (list Ad) * option error) :=
  '(ads, err) ← Repository.GetAllAds page limit sortBy order;
  match err with
  | Some err => mret (None, Some err)
  | None => mret (ads, None)
  end.

(** The first branch of [GetAdByID]: the Ad to return straight from the
    cache, if the lookup gave a non-empty value that unmarshals. *)
Definition cached (cachedAd : string) (err : option error) : option Ad :=
  if negb (not_nil err) && negb (String.eqb cachedAd "") then
    match json_Unmarshal cachedAd with
    | Ok ad => Some ad
    | Err _ => None
    end
  else None.

(** [AdService.GetAdByID] *)
Definition GetAdByID (id : Z) : M (Result Ad) :=
  let cacheKey := "ad_" +:+ Itoa id in
  '(cachedAd, err) ← Cache.Get cacheKey;
  match cached cachedAd err with
  | Some ad => mret (Ok ad)
  | None =>
      r ← Repository.GetAdByID id;
      match r with
      | Err err =>
          if bool_decide (err = sql_ErrNoRows) then mret (Err err)
          else mret (Err err)
      | Ok ad =>
          match json_Marshal ad with
          | Ok adBytes =>
              _ ← Cache.Set_ cacheKey adBytes (5 * Minute);
              mret (Ok ad)
          | Err _ => mret (Ok ad)
          end
      end
  end.

(** [AdService.UpdateAd] *)
Definition UpdateAd (id : Z) (ad : Ad) : M (option error) :=
  err ← Repository.UpdateAd id ad;
  match err with
  | Some err =>
      if errors_Is err ErrAdNotFound then mret (Some ErrAdNotFound)
      else mret (Some err)
  | None =>
      let cacheKey := "ad_" +:+ Itoa id in
      _ ← Cache.Delete cacheKey;
      mret None
  end.

(** [AdService.DeleteAd] *)
Definition DeleteAd (id : Z) : M (option error) :=
  err ← Repository.DeleteAd id;
  match err with
  | Some err =>
      if errors_Is err ErrAdNotFound then mret (Some ErrAdNotFound)
      else mret (Some err)
  | None =>
      let cacheKey := "ad_" +:+ Itoa id in
      _ ← Cache.Delete cacheKey;
      mret None
  end.

End with_json.
End AdService.

(** ** The HTTP handlers *)

(** What a handler reads from [*gin.Context]. *)
Record Request : Type := mkRequest {
  params : list (string * string);
  query_values : list (string * string);
  body : string
}.

(** What [c.JSON(code, obj)] writes. *)
Inductive Payload : Type :=
  | JAd (ad : Ad)
  | JAds (ads : option (list Ad))
  | H (key value : string).

Record Response : Type := mkResponse {
  status : Z;
  payload : Payload
}.

Definition StatusOK : Z := 200.
Definition StatusCreated : Z := 201.
Definition StatusBadRequest : Z := 400.
Definition StatusNotFound : Z := 404.
Definition StatusInternalServerError : Z := 500.

Fixpoint assoc {V} (key : string) (l : list (string * V)) : option V :=
  match l with
  | [] => None
  | (k, v) :: l' => if String.eqb key k then Some v else assoc key l'
  end.

(** [c.Param(key)]: the empty string when the route has no such parameter. *)
Definition Param (c : Request) (key : string) : string :=
  default "" (assoc key (params c)).

(** [c.DefaultQuery(key, defaultValue)] *)
Definition DefaultQuery (c : Request) (key defaultValue : string) : string :=
  default defaultValue (assoc key (query_values c)).

(** [validSortFields[sortBy]] of [Handler.GetAllAds] *)
Definition validSortFields (sortBy : string) : bool :=
  default false
    (assoc sortBy
       [("id", true); ("title", true); ("price", true); ("created_at", true);
        ("is_active", true)]).

Module Handler.
Section with_json.
Context `{JSON}.

Definition JSON_ (code : Z) (obj : Payload) : M Response :=
  mret (mkResponse code obj).

(** [Handler.GetAdByID] *)
Definition GetAdByID (c : Request) : M Response :=
  let '(id, err) := Atoi (Param c "id") in
  if not_nil err || (id <=? 0) then
    JSON_ StatusBadRequest (H "error" "Invalid ID")
  else
    r ← AdService.GetAdByID id;
    match r with
    | Err err =>
        if bool_decide (err = sql_ErrNoRows)
        then JSON_ StatusNotFound (H "error" "Ad not found")
        else JSON_ StatusInternalServerError (H "error" "Failed to fetch ad by ID")
    | Ok ad => JSON_ StatusOK (JAd ad)
    end.

(** [Handler.AddAd] *)
Definition AddAd (c : Request) : M Response :=
  match ShouldBindJSON (body c) with
  | Err _ => JSON_ StatusBadRequest (H "error" "Invalid request body")
  | Ok ad =>
      if String.eqb (Title ad) "" || String.eqb (Description ad) "" then
        JSON_ StatusBadRequest (H "error" "Title and description are required")
      else if PrimFloat.leb (Price ad) 0 then
        JSON_ StatusBadRequest (H "error" "Price cannot be zero or negative")
      else
        '(ad, err) ← AdService.AddAd ad;
        if not_nil err then
          JSON_ StatusInternalServerError (H "error" "Failed to add ad")
        else JSON_ StatusCreated (JAd ad)
  end.

(** [Handler.GetAllAds] *)
Definition GetAllAds (c : Request) : M Response :=
  let '(page, err) := Atoi (DefaultQuery c "page" "1") in
  if not_nil err || (page <=? 0) then
    JSON_ StatusBadRequest (H "error" "Invalid page value. Must be a positive integer.")
  else
    let '(limit, err) := Atoi (DefaultQuery c "limit" "10") in
    if not_nil err || (limit <=? 0) then
      JSON_ StatusBadRequest (H "error" "Invalid limit value. Must be a positive integer.")
    else
      let sortBy := DefaultQuery c "sort_by" "created_at" in
      if negb (validSortFields sortBy) then
        JSON_ StatusBadRequest
          (H "error" "Invalid sort_by value. Must be one of 'id', 'title', 'price', 'created_at', 'is_active'.")
      else
        let order := DefaultQuery c "order" "asc" in
        if negb (String.eqb order "asc") && negb (String.eqb order "desc") then
          JSON_ StatusBadRequest
            (H "error" "Invalid order value. Must be either 'asc' or 'desc'.")
        else
          '(ads, err) ← AdService.GetAllAds page limit sortBy order;
          if not_nil err then
            JSON_ StatusInternalServerError (H "error" "Failed to fetch ads")
          else JSON_ StatusOK (JAds ads).

(** [Handler.UpdateAd] *)
Definition UpdateAd (c : Request) : M Response :=
  let '(id, err) := Atoi (Param c "id") in
  if not_nil err || (id <=? 0) then
    JSON_ StatusBadRequest (H "error" "Invalid ad ID")
  else
    match ShouldBindJSON (body c) with
    | Err _ => JSON_ StatusBadRequest (H "error" "Invalid request body")
    | Ok ad =>
        if String.eqb (Title ad) "" || String.eqb (Description ad) "" then
          JSON_ StatusBadRequest (H "error" "Title and description are required")
        else if PrimFloat.leb (Price ad) 0 then
          JSON_ StatusBadRequest (H "error" "Price cannot be zero or negative")
        else
          err ← AdService.UpdateAd id ad;
          match err with
          | Some err =>
              if errors_Is err ErrAdNotFound
              then JSON_ StatusNotFound (H "error" "Ad not found")
              else JSON_ StatusInternalServerError (H "error" "Failed to update ad")
          | None => JSON_ StatusOK (H "message" "Ad updated")
          end
    end.

(** [Handler.DeleteAd] *)
Definition DeleteAd (c : Request) : M Response :=
  let '(id, err) := Atoi (Param c "id") in
  if not_nil err || (id <=? 0) then
    JSON_ StatusBadRequest (H "error" "Invalid ad ID")
  else
    err ← AdService.DeleteAd id;
    match err with
    | Some err =>
        if errors_Is err ErrAdNotFound
        then JSON_ StatusNotFound (H "error" "Ad not found")
        else JSON_ StatusInternalServerError (H "error" "Failed to delete ad")
    | None => JSON_ StatusOK (H "message" "Ad deleted")
    end.

End with_json.
End Handler.


(** ** Start-up: internal/config and cache.NewCache *)

(** [type Config struct] of config.go *)
Record MySQLConfig : Type := mkMySQLConfig {
  mysql_User : string;
  mysql_Password : string;
  mysql_Host : string;
  mysql_Port : string;
  mysql_Database : string
}.

Record RedisConfig : Type := mkRedisConfig {
  redis_Host : string;
  redis_Port : string;
  redis_Password : string;
  redis_DB : Z
}.

Record Config : Type := mkConfig {
  MySQL : MySQLConfig;
  Redis : RedisConfig;
  Server_Port : string;
  Tracing_JaegerEndpoint : string
}.

(** [redis.Options], as [NewCache] fills it. *)
Record redis_Options : Type := mkOptions {
  Addr : string;
  Password : string;
  DB_ : Z
}.

(** What the process meets while it starts: the outcome of reading and of
    decoding the configuration file, the failures of the pings to come, and
    the time spent in [time.Sleep] so far. *)
Record Boot : Type := mkBoot {
  viper_ReadInConfig : option error;
  viper_Unmarshal : Result Config;
  ping_faults : list (option string);
  slept : Duration
}.

(** A call either comes back or ends the process: [log.Fatalf] prints its
    message and exits. *)
Inductive Exit (A : Type) : Type :=
  | Fatalf (msg : string)
  | Returned (a : A).
Arguments Fatalf {A} msg.
Arguments Returned {A} a.

(** The verb [%v] applied to an [error]. *)
Definition fmt_v (err : option error) : string :=
  match err with
  | None => "<nil>"
  | Some e => Error e
  end.

Module config.

(** [config.LoadConfig]: the pair is the pointer to the Config and the error. *)
Definition LoadConfig (b : Boot) : Exit (option Config * option error) :=
  match viper_ReadInConfig b with
  | Some err => Fatalf ("Failed to load configuration: " +:+ fmt_v (Some err))
  | None =>
      match viper_Unmarshal b with
      | Err err => Fatalf ("Failed to unmarshal configuration: " +:+ fmt_v (Some err))
      | Ok config => Returned (Some config, None)
      end
  end.

End config.

(** [time.Sleep] *)
Definition time_Sleep (d : Duration) (b : Boot) : Boot :=
  mkBoot (viper_ReadInConfig b) (viper_Unmarshal b) (ping_faults b) (slept b + d).

(** [rdb.Ping(context.Background()).Result()], keeping the error. *)
Definition Ping (b : Boot) : option error * Boot :=
  (backend_error <$> next_fault (ping_faults b),
   mkBoot (viper_ReadInConfig b) (viper_Unmarshal b) (tail (ping_faults b)) (slept b)).

(** The loop of [retry] from index [i] on, with [rounds] iterations left
    before [i] reaches [attempts]. *)
Fixpoint retry_from (operation : Boot → option error * Boot) (rounds : nat)
    (i attempts : Z) (delay : Duration) (b : Boot) : option error * Boot :=
  match rounds with
  | O => (None, b)
  | S rounds' =>
      let '(err, b) := operation b in
      match err with
      | Some err =>
          if i =? attempts - 1 then (Some err, b)
          else retry_from operation rounds' (i + 1) attempts delay (time_Sleep delay b)
      | None => (None, b)
      end
  end.

(** [retry] of the cache package *)
Definition retry (operation : Boot → option error * Boot) (attempts : Z)
    (delay : Duration) (b : Boot) : option error * Boot :=
  retry_from operation (Z.to_nat attempts) 0 attempts delay b.

(** [cache.NewCache]: the options of the client the cache wraps.  The message
    of the second [log.Fatalf] formats [err], the variable that holds the
    error of [LoadConfig]. *)
Definition NewCache (b : Boot) : Exit redis_Options * Boot :=
  match config.LoadConfig b with
  | Fatalf msg => (Fatalf msg, b)
  | Returned (cfg, err) =>
      if not_nil err then
        (Fatalf ("Could not load configuration: " +:+ fmt_v err), b)
      else
        match cfg with
        | None =>
            (Fatalf "panic: runtime error: invalid memory address or nil pointer dereference",
             b)
        | Some cfg =>
            let redisHost := redis_Host (Redis cfg) in
            let redisPort := redis_Port (Redis cfg) in
            let redisPassword := redis_Password (Redis cfg) in
            let redisDB := redis_DB (Redis cfg) in
            let rdb := mkOptions (redisHost +:+ ":" +:+ redisPort) redisPassword redisDB in
            let '(errRetry, b) := retry Ping 3 (2 * Second) b in
            if not_nil errRetry then
              (Fatalf ("Could not connect to Redis after multiple attempts: " +:+ fmt_v err),
               b)
            else (Returned rdb, b)
        end
  end.
(** * Vocabulary of the specification *)

(** ** What a backend call leaves behind *)

Definition after_mysql_call (e : Event) (d : DB) (w : World) : World :=
  mkWorld d (redis w) (tail (mysql_faults w)) (redis_faults w) (trace w ++ [e]).

Definition after_redis_call (e : Event) (r : gmap string (string * Duration)) (w : World)
  : World :=
  mkWorld (mysql w) r (mysql_faults w) (tail (redis_faults w)) (trace w ++ [e]).

(** ** The statements the repository sends *)

Definition select_by_id : string :=
  "SELECT id, title, description, price, created_at, is_active FROM ads WHERE id = ?".

(** The columns an [UpdateAd id ad] writes to the row [old]. *)
Definition updated (ad old : Ad) : Ad :=
  mkAd (ID old) (Title ad) (Description ad) (Price ad) (CreatedAt old)
       (if IsActive ad then true else IsActive old).

(** The statement text and arguments [Repository.UpdateAd] builds. *)
Definition update_call (id : Z) (ad : Ad) : string * list SqlValue :=
  if IsActive ad
  then ("UPDATE ads SET title = ?, description = ?, price = ?, is_active = ? WHERE id = ?",
        [VString (Title ad); VString (Description ad); VFloat (Price ad); VBool true;
         VInt id])
  else ("UPDATE ads SET title = ?, description = ?, price = ? WHERE id = ?",
        [VString (Title ad); VString (Description ad); VFloat (Price ad); VInt id]).

(** The outcome of [UpdateAd] and [DeleteAd], read off the server's answer. *)
Definition mutation_error (what : string) (r : Result sql_Result) : option error :=
  match r with
  | Err err => Some (fmt_Errorf ("could not " +:+ what +:+ " ad: " +:+ Error err))
  | Ok result =>
      match RowsAffected result with
      | Err err => Some (fmt_Errorf ("could not retrieve affected rows: " +:+ Error err))
      | Ok n => if n =? 0 then Some ErrAdNotFound else None
      end
  end.

(** ** The cache in front of [GetAdByID] *)

Definition cache_key (id : Z) : string := "ad_" +:+ Itoa id.

(** The Ad a lookup of [id] finds in the cache: the Redis call goes through,
    the key is there and its value unmarshals. *)
Definition usable_hit `{JSON} (w : World) (id : Z) : option Ad :=
  match next_fault (redis_faults w) with
  | Some _ => None
  | None =>
      match redis w !! cache_key id with
      | Some (value, _) =>
          match json_Unmarshal value with
          | Ok ad => Some ad
          | Err _ => None
          end
      | None => None
      end
  end.

(** The three ways a lookup can be of no use. *)
Definition lookup_fails (w : World) : Prop :=
  ∃ msg, next_fault (redis_faults w) = Some msg.

Definition lookup_misses (w : World) (id : Z) : Prop :=
  next_fault (redis_faults w) = None ∧ redis w !! cache_key id = None.

Definition lookup_garbled `{JSON} (w : World) (id : Z) : Prop :=
  next_fault (redis_faults w) = None ∧
  ∃ value ttl, redis w !! cache_key id = Some (value, ttl) ∧
               is_Ok (json_Unmarshal value) = false.

Definition with_redis_faults (rf : list (option string)) (w : World) : World :=
  mkWorld (mysql w) (redis w) (mysql_faults w) rf (trace w).

(** The events a run added to the log. *)
Definition new_events (w w' : World) : list Event :=
  drop (length (trace w)) (trace w').

(** ** A document store for the examples

    A finite fragment of encoding/json: the documents that occur in the
    examples, each with the [Ad] it stands for.  Anything outside the
    fragment is answered with an error. *)
Module Fixture.

Definition dq : string := String (ascii_of_nat 34) "".

Definition member (name value : string) : string := dq +:+ name +:+ dq +:+ ":" +:+ value.

Definition text (s : string) : string := dq +:+ s +:+ dq.

(** 2024-10-14T12:34:56Z *)
Definition clock : Time := 63864506096.

Definition laptop_input : Ad := mkAd 0 "Laptop" "x" 1200 time_zero true.

Definition laptop : Ad := mkAd 1 "Laptop" "x" 1200 clock true.

Definition laptop_v2 : Ad := mkAd 0 "Laptop v2" "y" 999 time_zero false.

Definition untitled : Ad := mkAd 0 "" "x" 1200 time_zero false.

Definition free : Ad := mkAd 0 "Laptop" "x" 0 time_zero false.

Definition laptop_json : string :=
  "{" +:+ member "id" "1" +:+ "," +:+ member "title" (text "Laptop") +:+ ","
      +:+ member "description" (text "x") +:+ "," +:+ member "price" "1200" +:+ ","
      +:+ member "created_at" (text "2024-10-14T12:34:56Z") +:+ ","
      +:+ member "is_active" "true" +:+ "}".

Definition laptop_body : string :=
  "{" +:+ member "title" (text "Laptop") +:+ "," +:+ member "description" (text "x")
      +:+ "," +:+ member "price" "1200" +:+ "," +:+ member "is_active" "true" +:+ "}".

Definition laptop_v2_body : string :=
  "{" +:+ member "title" (text "Laptop v2") +:+ "," +:+ member "description" (text "y")
      +:+ "," +:+ member "price" "999" +:+ "}".

Definition untitled_body : string :=
  "{" +:+ member "title" (text "") +:+ "," +:+ member "description" (text "x")
      +:+ "," +:+ member "price" "1200" +:+ "}".

Definition free_body : string :=
  "{" +:+ member "title" (text "Laptop") +:+ "," +:+ member "description" (text "x")
      +:+ "," +:+ member "price" "0" +:+ "}".

Definition same_ad (a b : Ad) : bool :=
  (ID a =? ID b) && String.eqb (Title a) (Title b)
  && String.eqb (Description a) (Description b)
  && PrimFloat.eqb (Price a) (Price b) && (CreatedAt a =? CreatedAt b)
  && Bool.eqb (IsActive a) (IsActive b).

Definition stored_documents : list (string * Ad) := [(laptop_json, laptop)].

Definition request_bodies : list (string * Ad) :=
  [(laptop_body, laptop_input); (laptop_v2_body, laptop_v2);
   (untitled_body, untitled); (free_body, free)].

Definition marshal (a : Ad) : Result string :=
  match list_find (λ p, same_ad a p.2 = true) stored_documents with
  | Some (_, (doc, _)) => Ok doc
  | None => Err (backend_error "json: unsupported value")
  end.

Definition parse (documents : list (string * Ad)) (doc : string) : Result Ad :=
  match assoc doc documents with
  | Some a => Ok a
  | None => Err json_SyntaxError
  end.

#[export] Instance codec : JSON :=
  {| json_Marshal := marshal;
     json_Unmarshal := parse stored_documents;
     ShouldBindJSON := parse request_bodies;
     json_Unmarshal_empty := eq_refl |}.

(** The world after [Create(laptop)]: row 1 in the table, nothing cached. *)
Definition stored (mf rf : list (option string)) : World :=
  mkWorld (mkDB {[ 1 := laptop ]} 2 clock) ∅ mf rf [].

(** The same with the row cached. *)
Definition stored_and_cached (mf rf : list (option string)) : World :=
  mkWorld (mkDB {[ 1 := laptop ]} 2 clock) {[ "ad_1" := (laptop_json, 5 * Minute) ]}
          mf rf [].

(** Create, read (which fills the cache), delete while Redis is down, read
    again. *)
Definition read_after_failed_invalidation : Result Ad * World :=
  let w := initial_world clock [] [None; None; Some "dial tcp: connection refused"] in
  let '(_, w) := AdService.AddAd laptop_input w in
  let '(_, w) := AdService.GetAdByID 1 w in
  let '(_, w) := AdService.DeleteAd 1 w in
  let '(r, w') := AdService.GetAdByID 1 w in
  (r, w).

End Fixture.

(** What a read of row [id] gives when the cache is of no use. *)
Definition store_read (w : World) (id : Z) : Result Ad :=
  match next_fault (mysql_faults w) with
  | Some msg => Err (backend_error msg)
  | None =>
      match rows (mysql w) !! id with
      | Some a => Ok a
      | None => Err sql_ErrNoRows
      end
  end.

Definition after_lookup (w : World) (id : Z) : World :=
  after_redis_call (EvRedisGet (cache_key id)) (redis w) w.

Definition after_store_read (w : World) (id : Z) : World :=
  after_mysql_call (EvSqlQuery select_by_id [VInt id]) (mysql w) (after_lookup w id).

(** ** Mutations *)

(** The answer of the server to the statement an [UpdateAd id ad] sends. *)
Definition update_answer (w : World) (id : Z) (ad : Ad) : Result sql_Result :=
  (sql_DB.ExecContext (update_call id ad).1 (update_call id ad).2 w).1.

(** The answer of the server to the statement a [DeleteAd id] sends. *)
Definition delete_answer (w : World) (id : Z) : Result sql_Result :=
  (sql_DB.ExecContext "DELETE FROM ads WHERE id = ?" [VInt id] w).1.

(** The server carried the statement out and changed no row. *)
Definition zero_rows (answer : Result sql_Result) : Prop :=
  ∃ result, answer = Ok result ∧ RowsAffected result = Ok 0.

(** The server carried the statement out and changed at least one row. *)
Definition some_rows (answer : Result sql_Result) : Prop :=
  ∃ result n, answer = Ok result ∧ RowsAffected result = Ok n ∧ 0 < n.

(** How the result [res] of a mutation follows from the server's answer to
    its statement: [ErrAdNotFound] exactly for a statement carried out on
    zero rows, another error for a statement that failed, success for a
    statement that changed a row. *)
Definition reports (answer : Result sql_Result) (res : option error) : Prop :=
  (res = Some ErrAdNotFound ↔ zero_rows answer) ∧
  (∀ failure, answer = Err failure →
     ∃ err, res = Some err ∧ err ≠ ErrAdNotFound ∧ errors_Is err ErrAdNotFound = false) ∧
  (some_rows answer → res = None).

(** How a mutation [op] on [id] orders its backend calls: one statement to
    MySQL comes first; the key of [id] is deleted from Redis next, and only
    if the mutation is going to report success; a mutation that reports an
    error has left Redis and its failure schedule alone, and the table as it
    was. *)
Definition store_then_cache (op : M (option error)) (w : World) (id : Z) : Prop :=
  ∃ query args,
    match (op w).1 with
    | Some _ =>
        trace (op w).2 = trace w ++ [EvSqlExec query args] ∧
        redis (op w).2 = redis w ∧
        redis_faults (op w).2 = redis_faults w ∧
        mysql (op w).2 = mysql w
    | None =>
        trace (op w).2 = trace w ++ [EvSqlExec query args; EvRedisDel (cache_key id)] ∧
        some_rows (sql_DB.ExecContext query args w).1 ∧
        redis (op w).2 =
          match next_fault (redis_faults w) with
          | Some _ => redis w
          | None => delete (cache_key id) (redis w)
          end
    end.

(** Whatever Redis does, [op] returns the same result and leaves the same
    table behind. *)
Definition cache_blind (op : M (option error)) (w : World) : Prop :=
  ∀ rf, (op (with_redis_faults rf w)).1 = (op w).1 ∧
        mysql (op (with_redis_faults rf w)).2 = mysql (op w).2.

(** ** Creation *)

(** The table after the INSERT of [ad]. *)
Definition inserted (ad : Ad) (d : DB) : DB :=
  mkDB (<[auto_increment d :=
            mkAd (auto_increment d) (Title ad) (Description ad) (Price ad) (now d)
                 (IsActive ad)]> (rows d))
       (auto_increment d + 1) (now d).

(** ** The worlds the service can be in *)

Inductive Call : Type :=
  | CallAddAd (ad : Ad)
  | CallGetAllAds (page limit : Z) (sortBy order : string)
  | CallGetAdByID (id : Z)
  | CallUpdateAd (id : Z) (ad : Ad)
  | CallDeleteAd (id : Z).

Definition serve `{JSON} (c : Call) (w : World) : World :=
  match c with
  | CallAddAd ad => (AdService.AddAd ad w).2
  | CallGetAllAds page limit sortBy order => (AdService.GetAllAds page limit sortBy order w).2
  | CallGetAdByID id => (AdService.GetAdByID id w).2
  | CallUpdateAd id ad => (AdService.UpdateAd id ad w).2
  | CallDeleteAd id => (AdService.DeleteAd id w).2
  end.

(** What happens around the service: the server clock moves, a cached entry
    expires, the backends start or stop failing. *)
Definition set_clock (t : Time) (w : World) : World :=
  mkWorld (mkDB (rows (mysql w)) (auto_increment (mysql w)) t) (redis w)
          (mysql_faults w) (redis_faults w) (trace w).

Definition expire (key : string) (w : World) : World :=
  mkWorld (mysql w) (delete key (redis w)) (mysql_faults w) (redis_faults w) (trace w).

Definition with_faults (mf rf : list (option string)) (w : World) : World :=
  mkWorld (mysql w) (redis w) mf rf (trace w).

(** A world is reachable when the service got there from an empty table and
    an empty keyspace by serving calls, with the surroundings free to act in
    between.  The clock never shows Go's zero instant. *)
Inductive reachable `{JSON} : World → Prop :=
  | reachable_start clock mf rf :
      clock ≠ time_zero → reachable (initial_world clock mf rf)
  | reachable_serve c w : reachable w → reachable (serve c w)
  | reachable_clock t w : t ≠ time_zero → reachable w → reachable (set_clock t w)
  | reachable_expire key w : reachable w → reachable (expire key w)
  | reachable_faults mf rf w : reachable w → reachable (with_faults mf rf w).

(** Ids from [auto_increment] on are unused: no row has one, and no cache
    entry is filed under one. *)
Definition unused_ids_are_free (w : World) : Prop :=
  ∀ id, auto_increment (mysql w) ≤ id →
        rows (mysql w) !! id = None ∧ redis w !! cache_key id = None.

(** ** What the handlers are to reject *)

Fixpoint index_of (c : ascii) (l : list ascii) (i : Z) : option Z :=
  match l with
  | [] => None
  | x :: l' => if Ascii.eqb c x then Some i else index_of c l' (i + 1)
  end.

(** The value of a decimal digit. *)
Definition digit_value (c : ascii) : option Z :=
  index_of c (list_ascii_of_string "0123456789") 0.

(** The value of a non-empty run of decimal digits. *)
Definition digits_value (s : string) : option Z :=
  if String.eqb s "" then None
  else foldl (λ acc c, a ← acc; d ← digit_value c; Some (a * 10 + d))
             (Some 0) (list_ascii_of_string s).

(** The number a text denotes: decimal digits after an optional sign.  A
    text that denotes no number is not numeric. *)
Definition int_value (s : string) : option Z :=
  match s with
  | EmptyString => None
  | String c rest =>
      if Ascii.eqb c "-"%char then Z.opp <$> digits_value rest
      else if Ascii.eqb c "+"%char then digits_value rest
      else digits_value s
  end.

(** Not numeric, or not positive. *)
Definition not_a_positive_number (s : string) : Prop :=
  match int_value s with
  | None => True
  | Some n => n ≤ 0
  end.

Definition bad_id (c : Request) : Prop := not_a_positive_number (Param c "id").

Definition bad_ad `{JSON} (c : Request) : Prop :=
  ∃ ad, ShouldBindJSON (body c) = Ok ad ∧
        (Title ad = "" ∨ Description ad = "" ∨ PrimFloat.leb (Price ad) 0 = true).

Definition bad_paging (c : Request) : Prop :=
  not_a_positive_number (DefaultQuery c "page" "1") ∨
  not_a_positive_number (DefaultQuery c "limit" "10").

Definition bad_sorting (c : Request) : Prop :=
  DefaultQuery c "sort_by" "created_at" ∉ ["id"; "title"; "price"; "created_at"; "is_active"] ∨
  DefaultQuery c "order" "asc" ∉ ["asc"; "desc"].

(** The handler answers 400 and makes no backend call: the world is as it
    was, log included. *)
Definition rejects (h : Request → M Response) (c : Request) (w : World) : Prop :=
  status (h c w).1 = StatusBadRequest ∧ (h c w).2 = w.

(** ** What the handlers let through *)

Definition good_id (c : Request) (id : Z) : Prop :=
  Atoi (Param c "id") = (id, None) ∧ 0 < id.

Definition good_ad `{JSON} (c : Request) (ad : Ad) : Prop :=
  ShouldBindJSON (body c) = Ok ad ∧ Title ad ≠ "" ∧ Description ad ≠ "" ∧
  PrimFloat.leb (Price ad) 0 = false.

Definition good_listing (c : Request) (page limit : Z) (sortBy order : string) : Prop :=
  Atoi (DefaultQuery c "page" "1") = (page, None) ∧ 0 < page ∧
  Atoi (DefaultQuery c "limit" "10") = (limit, None) ∧ 0 < limit ∧
  sortBy = DefaultQuery c "sort_by" "created_at" ∧ validSortFields sortBy = true ∧
  order = DefaultQuery c "order" "asc" ∧ (order = "asc" ∨ order = "desc").

(** The status for the error of a service call: 404 for the sentinel that
    stands for a missing ad, 500 for any other error, [success] without. *)
Definition status_for (not_found : option error) (success : Z) (err : option error) : Z :=
  match err with
  | None => success
  | Some e => if bool_decide (Some e = not_found) then StatusNotFound
              else StatusInternalServerError
  end.

Definition error_of {A} (r : Result A) : option error :=
  match r with Ok _ => None | Err e => Some e end.

(** ** Start-up *)

(** How many pings fail in a row before one goes through. *)
Fixpoint leading_failures (schedule : list (option string)) : nat :=
  match schedule with
  | Some _ :: schedule' => S (leading_failures schedule')
  | _ => 0%nat
  end.

(** A boot in which the configuration loads. *)
Definition configured (cfg : Config) (pings : list (option string)) : Boot :=
  mkBoot None (Ok cfg) pings 0.

(** ** What holds of every reachable world *)

(** A row is filed under its own id, and ids start at 1. *)
Definition rows_carry_their_id (w : World) : Prop :=
  ∀ id a, rows (mysql w) !! id = Some a → ID a = id ∧ 1 ≤ id.

(** A cache entry is the marshalled text of an Ad, filed under the key of
    that Ad's id, an id the table has assigned, for five minutes. *)
Definition cache_holds_marshalled_ads `{JSON} (w : World) : Prop :=
  ∀ key doc ttl, redis w !! key = Some (doc, ttl) →
    ttl = 5 * Minute ∧
    ∃ ad, key = cache_key (ID ad) ∧ 1 ≤ ID ad < auto_increment (mysql w) ∧
          json_Marshal ad = Ok doc.

(** Calls served one after the other. *)
Definition serve_all `{JSON} (calls : list Call) (w : World) : World :=
  foldl (λ w c, serve c w) w calls.

(** ** Requests *)

(** The request with the defaults of [GetAllAds] spelled out after its own
    query values. *)
Definition with_defaults (c : Request) : Request :=
  mkRequest (params c)
    (query_values c ++
     [("page", "1"); ("limit", "10"); ("sort_by", "created_at"); ("order", "asc")])
    (body c).

(** ** Start-ups for the examples *)
Module Sample.

Definition cfg : Config :=
  mkConfig (mkMySQLConfig "ads" "secret" "mysql" "3306" "ads")
           (mkRedisConfig "redis" "6379" "" 0) "8080" "jaeger:4318".

(** Redis refuses the first two connections. *)
Definition slow_redis : Boot :=
  configured cfg [Some "connection refused"; Some "connection refused"; None].

(** Redis refuses every connection. *)
Definition no_redis : Boot :=
  configured cfg
    [Some "connection refused"; Some "connection refused"; Some "i/o timeout";
     Some "i/o timeout"].

(** Row 1 cached, and Redis down for the next call only. *)
Definition cached_redis_down_once : World :=
  Fixture.stored_and_cached [] [Some "i/o timeout"].

(** After a create and a read that filled the cache. *)
Definition after_first_read : World :=
  @serve Fixture.codec (CallGetAdByID 1)
    (@serve Fixture.codec (CallAddAd Fixture.laptop_input)
       (initial_world Fixture.clock [] [])).

(** And a second create after that. *)
Definition two_ads : World :=
  @serve Fixture.codec (CallAddAd Fixture.laptop_v2) after_first_read.

Definition second_ad : Ad := mkAd 2 "Laptop v2" "y" 999 Fixture.clock false.

End Sample.
(** * Verification *)

(** ** What each backend call does to the world *)

Ltac unfold_monad :=
  cbv beta iota zeta delta
    [mbind M_bind mret M_ret log mysql_fault redis_fault get_mysql put_mysql
     get_redis put_redis mysql redis mysql_faults redis_faults trace
     after_mysql_call after_redis_call].

Lemma ExecContext_run (q : string) (args : list SqlValue) (w : World) :
  sql_DB.ExecContext q args w =
    match next_fault (mysql_faults w) with
    | Some msg => (Err (backend_error msg), after_mysql_call (EvSqlExec q args) (mysql w) w)
    | None =>
        match mysql_exec q args (mysql w) with
        | Ok (result, d') => (Ok result, after_mysql_call (EvSqlExec q args) d' w)
        | Err err => (Err err, after_mysql_call (EvSqlExec q args) (mysql w) w)
        end
    end.
Proof.
  destruct w as [d r mf rf tr].
  unfold sql_DB.ExecContext, after_mysql_call. unfold_monad.
  destruct (next_fault mf); [reflexivity|].
  destruct (mysql_exec q args d) as [[result d']|err]; reflexivity.
Qed.

Lemma QueryContext_run (q : string) (args : list SqlValue) (w : World) :
  sql_DB.QueryContext q args w =
    (match next_fault (mysql_faults w) with
     | Some msg => Err (backend_error msg)
     | None => mysql_query q args (mysql w)
     end,
     after_mysql_call (EvSqlQuery q args) (mysql w) w).
Proof.
  destruct w as [d r mf rf tr].
  unfold sql_DB.QueryContext, after_mysql_call. unfold_monad.
  destruct (next_fault mf); reflexivity.
Qed.

Lemma Cache_Get_run (key : string) (w : World) :
  Cache.Get key w =
    (match next_fault (redis_faults w) with
     | Some msg => ("", Some (backend_error msg))
     | None =>
         match redis w !! key with
         | Some (value, _) => (value, None)
         | None => ("", None)
         end
     end,
     after_redis_call (EvRedisGet key) (redis w) w).
Proof.
  destruct w as [d r mf rf tr].
  unfold Cache.Get, redis_Client.Get, after_redis_call. unfold_monad.
  destruct (next_fault rf); [reflexivity|].
  destruct (r !! key) as [[value ttl]|]; reflexivity.
Qed.

Lemma Cache_Set_run (key value : string) (ttl : Duration) (w : World) :
  Cache.Set_ key value ttl w =
    match next_fault (redis_faults w) with
    | Some msg =>
        (Some (backend_error msg),
         after_redis_call (EvRedisSet key value ttl) (redis w) w)
    | None =>
        (None,
         after_redis_call (EvRedisSet key value ttl) (<[key := (value, ttl)]> (redis w)) w)
    end.
Proof.
  destruct w as [d r mf rf tr].
  unfold Cache.Set_, redis_Client.Set_, after_redis_call. unfold_monad.
  destruct (next_fault rf); reflexivity.
Qed.

Lemma Cache_Delete_run (key : string) (w : World) :
  Cache.Delete key w =
    match next_fault (redis_faults w) with
    | Some msg =>
        (Some (backend_error msg), after_redis_call (EvRedisDel key) (redis w) w)
    | None => (None, after_redis_call (EvRedisDel key) (delete key (redis w)) w)
    end.
Proof.
  destruct w as [d r mf rf tr].
  unfold Cache.Delete, redis_Client.Del, after_redis_call. unfold_monad.
  destruct (next_fault rf); reflexivity.
Qed.

Lemma query_by_id (id : Z) (d : DB) :
  mysql_query select_by_id [VInt id] d =
    match rows d !! id with
    | Some a => Ok [row_values a]
    | None => Ok []
    end.
Proof. reflexivity. Qed.

Lemma query_created_at (id : Z) (d : DB) :
  mysql_query "SELECT created_at FROM ads WHERE id = ?" [VInt id] d =
    match rows d !! id with
    | Some a => Ok [[VTime (CreatedAt a)]]
    | None => Ok []
    end.
Proof. reflexivity. Qed.

Lemma exec_insert (title description : string) (price : float) (is_active : bool) (d : DB) :
  mysql_exec "INSERT INTO ads (title, description, price, is_active) VALUES (?, ?, ?, ?)"
    [VString title; VString description; VFloat price; VBool is_active] d =
    Ok (mkResult (Ok (auto_increment d)) (Ok 1),
        mkDB (<[auto_increment d :=
                  mkAd (auto_increment d) title description price (now d) is_active]>
                (rows d))
             (auto_increment d + 1) (now d)).
Proof. reflexivity. Qed.

Lemma exec_delete (id : Z) (d : DB) :
  mysql_exec "DELETE FROM ads WHERE id = ?" [VInt id] d =
    match rows d !! id with
    | None => Ok (mkResult (Ok 0) (Ok 0), d)
    | Some _ =>
        Ok (mkResult (Ok 0) (Ok 1), mkDB (delete id (rows d)) (auto_increment d) (now d))
    end.
Proof. reflexivity. Qed.

Lemma exec_update (id : Z) (ad : Ad) (d : DB) :
  mysql_exec (update_call id ad).1 (update_call id ad).2 d =
    Ok (mysql_update id (updated ad) d).
Proof. unfold update_call, updated. destruct (IsActive ad); reflexivity. Qed.

(** ** The repository, call by call *)

Ltac unfold_bind :=
  cbv beta iota zeta delta [mbind M_bind mret M_ret Result_bind].

Lemma Repository_GetAdByID_run (id : Z) (w : World) :
  Repository.GetAdByID id w =
    (match next_fault (mysql_faults w) with
     | Some msg => Err (backend_error msg)
     | None =>
         match rows (mysql w) !! id with
         | Some a => Ok a
         | None => Err sql_ErrNoRows
         end
     end,
     after_mysql_call (EvSqlQuery select_by_id [VInt id]) (mysql w) w).
Proof.
  unfold Repository.GetAdByID, sql_DB.QueryRowContext. unfold_bind.
  rewrite QueryContext_run.
  destruct (next_fault (mysql_faults w)); [reflexivity|].
  change (mysql_query _ [VInt id] (mysql w)) with (mysql_query select_by_id [VInt id] (mysql w)).
  rewrite query_by_id.
  destruct (rows (mysql w) !! id) as [[i t s p c a]|]; reflexivity.
Qed.

Lemma update_call_built (id : Z) (ad : Ad) :
  (let query := "UPDATE ads SET title = ?, description = ?, price = ?, " in
   let params := [VString (Title ad); VString (Description ad); VFloat (Price ad)] in
   let '(query, params) :=
     if IsActive ad
     then (query +:+ "is_active = ?, ", params ++ [VBool (IsActive ad)])
     else (query, params) in
   (Repository.drop_last_two query +:+ " WHERE id = ?", params ++ [VInt id]))
  = update_call id ad.
Proof. unfold update_call. destruct (IsActive ad); reflexivity. Qed.

Lemma Repository_UpdateAd_run (id : Z) (ad : Ad) (w : World) :
  Repository.UpdateAd id ad w =
    let '(q, args) := update_call id ad in
    let '(r, w') := sql_DB.ExecContext q args w in
    (mutation_error "update" r, w').
Proof.
  unfold Repository.UpdateAd. rewrite <- update_call_built.
  destruct (IsActive ad); unfold_bind;
    match goal with |- context [sql_DB.ExecContext ?q ?a w] =>
      destruct (sql_DB.ExecContext q a w) as [[result|err] w'] end;
    try reflexivity;
    unfold mutation_error;
    destruct (RowsAffected result) as [n|err]; try reflexivity;
    destruct (n =? 0); reflexivity.
Qed.

Lemma Repository_DeleteAd_run (id : Z) (w : World) :
  Repository.DeleteAd id w =
    let '(r, w') := sql_DB.ExecContext "DELETE FROM ads WHERE id = ?" [VInt id] w in
    (mutation_error "delete" r, w').
Proof.
  unfold Repository.DeleteAd. unfold_bind.
  destruct (sql_DB.ExecContext _ _ w) as [[result|err] w']; try reflexivity.
  unfold mutation_error.
  destruct (RowsAffected result) as [n|err]; try reflexivity.
  destruct (n =? 0); reflexivity.
Qed.

Lemma mutation_error_not_found (what : string) (r : Result sql_Result) :
  mutation_error what r = Some ErrAdNotFound ↔
  ∃ result, r = Ok result ∧ RowsAffected result = Ok 0.
Proof.
  unfold mutation_error. split.
  - destruct r as [result|err]; [|discriminate].
    destruct (RowsAffected result) as [n|err] eqn:Hn; [|discriminate].
    destruct (Z.eqb_spec n 0) as [->|]; [|discriminate].
    intros _. by exists result.
  - intros (result & -> & ->). reflexivity.
Qed.


(** ** GetAdByID, branch by branch *)

Section get.
Context `{JSON}.

Lemma cached_usable_hit (w : World) (id : Z) :
  AdService.cached (Cache.Get (cache_key id) w).1.1 (Cache.Get (cache_key id) w).1.2
  = usable_hit w id.
Proof.
  rewrite Cache_Get_run. unfold AdService.cached, usable_hit. cbn [fst snd].
  destruct (next_fault (redis_faults w)); [reflexivity|].
  destruct (redis w !! cache_key id) as [[value ttl]|]; [|reflexivity].
  cbn [fst snd not_nil negb andb].
  destruct (String.eqb_spec value "") as [->|]; [|reflexivity].
  cbn [negb]. pose proof json_Unmarshal_empty as He.
  destruct (json_Unmarshal ""); [discriminate|reflexivity].
Qed.

Lemma GetAdByID_run (id : Z) (w : World) :
  AdService.GetAdByID id w =
    match usable_hit w id with
    | Some ad => (Ok ad, after_lookup w id)
    | None =>
        match store_read w id with
        | Err err => (Err err, after_store_read w id)
        | Ok ad =>
            match json_Marshal ad with
            | Ok doc =>
                (Ok ad, (Cache.Set_ (cache_key id) doc (5 * Minute)
                           (after_store_read w id)).2)
            | Err _ => (Ok ad, after_store_read w id)
            end
        end
    end.
Proof.
  unfold AdService.GetAdByID. fold (cache_key id).
  cbv beta iota zeta delta [mbind M_bind].
  pose proof (cached_usable_hit w id) as Hc.
  rewrite (Cache_Get_run (cache_key id) w) in Hc |- *. fold (after_lookup w id).
  cbn [fst snd] in Hc.
  match goal with |- context [let '(a, b) := ?p in _] =>
    destruct p as [cachedAd err] end.
  cbn [fst snd] in Hc. rewrite Hc.
  destruct (usable_hit w id) as [ad|]; [reflexivity|].
  rewrite Repository_GetAdByID_run. fold (after_store_read w id).
  change (mysql_faults (after_lookup w id)) with (mysql_faults w).
  change (mysql (after_lookup w id)) with (mysql w).
  fold (store_read w id).
  destruct (store_read w id) as [ad|e].
  - destruct (json_Marshal ad) as [doc|e]; [|reflexivity].
    destruct (Cache.Set_ _ _ _ _) as [e1 w1]. reflexivity.
  - destruct (bool_decide (e = sql_ErrNoRows)); reflexivity.
Qed.

Lemma usable_hit_None (w : World) (id : Z) :
  usable_hit w id = None ↔
  lookup_fails w ∨ lookup_misses w id ∨ lookup_garbled w id.
Proof.
  unfold usable_hit, lookup_fails, lookup_misses, lookup_garbled. split.
  - destruct (next_fault (redis_faults w)) as [msg|]; [eauto|].
    destruct (redis w !! cache_key id) as [[value ttl]|]; [|eauto].
    destruct (json_Unmarshal value) eqn:Hv; [discriminate|].
    intros _. right. right. split; [done|]. exists value, ttl. by rewrite Hv.
  - intros [[msg ->]|[[-> ->]|[-> (value & ttl & -> & Hv)]]]; try reflexivity.
    destruct (json_Unmarshal value); [discriminate|reflexivity].
Qed.

End get.

(** ** Reads *)

Section reads.
Context `{JSON}.

Lemma Cache_Set_trace (key value : string) (ttl : Duration) (w : World) :
  trace (Cache.Set_ key value ttl w).2 = trace w ++ [EvRedisSet key value ttl].
Proof. rewrite Cache_Set_run. by destruct (next_fault (redis_faults w)). Qed.

Lemma Cache_Set_redis (key value : string) (ttl : Duration) (w : World) :
  redis (Cache.Set_ key value ttl w).2 =
    match next_fault (redis_faults w) with
    | Some _ => redis w
    | None => <[key := (value, ttl)]> (redis w)
    end.
Proof. rewrite Cache_Set_run. by destruct (next_fault (redis_faults w)). Qed.

Lemma Cache_Set_mysql (key value : string) (ttl : Duration) (w : World) :
  mysql (Cache.Set_ key value ttl w).2 = mysql w.
Proof. rewrite Cache_Set_run. by destruct (next_fault (redis_faults w)). Qed.

Lemma get_lookup_first (w : World) (id : Z) :
  ∃ rest, trace (AdService.GetAdByID id w).2 = trace w ++ EvRedisGet (cache_key id) :: rest.
Proof.
  rewrite GetAdByID_run. destruct (usable_hit w id); [by exists []|].
  destruct (store_read w id) as [ad|err].
  - destruct (json_Marshal ad) as [doc|e]; cbn [snd].
    + rewrite Cache_Set_trace. cbn. rewrite <- !app_assoc. by eexists.
    + cbn. rewrite <- app_assoc. by eexists.
  - cbn. rewrite <- app_assoc. by eexists.
Qed.

(** C2. [GetAdByID id] is a cache-aside read.  Its first backend call is
    the lookup of ["ad_" ++ Itoa id] in Redis.  If that lookup goes through
    and the value found unmarshals ([usable_hit]), the unmarshalled Ad is
    returned, the lookup is the only call made and MySQL is neither asked
    nor charged a failure.  Otherwise (the lookup failed, missed, or found a
    value that does not unmarshal) the second call is the SELECT by id; an
    error of the store is returned as it is, with the cache untouched; a
    row is returned after a third call, the SET of its marshalled text
    under the same key with an expiration of five minutes (300 seconds),
    which stores it unless Redis fails at that moment. *)
Theorem get_is_cache_aside (w : World) (id : Z) :
  let key := "ad_" +:+ Itoa id in
  let lookup := EvRedisGet key in
  let read :=
    EvSqlQuery
      "SELECT id, title, description, price, created_at, is_active FROM ads WHERE id = ?"
      [VInt id] in
  let r := (AdService.GetAdByID id w).1 in
  let w' := (AdService.GetAdByID id w).2 in
  match usable_hit w id with
  | Some ad =>
      r = Ok ad ∧ trace w' = trace w ++ [lookup] ∧
      mysql w' = mysql w ∧ mysql_faults w' = mysql_faults w
  | None =>
      match store_read w id with
      | Err err => r = Err err ∧ trace w' = trace w ++ [lookup; read] ∧ redis w' = redis w
      | Ok ad =>
          r = Ok ad ∧
          match json_Marshal ad with
          | Ok doc =>
              trace w' = trace w ++ [lookup; read; EvRedisSet key doc (5 * Minute)] ∧
              Seconds (5 * Minute) = 300 ∧
              redis w' =
                match next_fault (tail (redis_faults w)) with
                | Some _ => redis w
                | None => <[key := (doc, 5 * Minute)]> (redis w)
                end
          | Err _ => trace w' = trace w ++ [lookup; read] ∧ redis w' = redis w
          end
      end
  end.
Proof.
  cbv zeta. rewrite GetAdByID_run. fold (cache_key id).
  destruct (usable_hit w id) as [ad|]; [by cbn|].
  destruct (store_read w id) as [ad|err].
  - destruct (json_Marshal ad) as [doc|e]; cbn [fst snd].
    + split; [done|]. rewrite Cache_Set_trace, Cache_Set_redis. cbn.
      rewrite <- !app_assoc. repeat split; reflexivity.
    + cbn. by rewrite <- app_assoc.
  - cbn. by rewrite <- app_assoc.
Qed.

(** C1. A row that is in the table is returned by [GetAdByID] whatever the
    cache does, as long as MySQL answers: when the lookup fails, misses or
    finds a value that does not unmarshal, and whether or not the write
    back to the cache fails afterwards, the result is the stored row; in
    particular when every Redis call of the read fails. *)
Theorem get_survives_cache_failure (w : World) (id : Z) (ad : Ad) :
  rows (mysql w) !! id = Some ad →
  next_fault (mysql_faults w) = None →
  (lookup_fails w ∨ lookup_misses w id ∨ lookup_garbled w id →
   (AdService.GetAdByID id w).1 = Ok ad) ∧
  (∀ down_1 down_2 rf,
     (AdService.GetAdByID id
        (with_redis_faults (Some down_1 :: Some down_2 :: rf) w)).1 = Ok ad).
Proof.
  intros Hrow Hup.
  assert (∀ w0, mysql w0 = mysql w → mysql_faults w0 = mysql_faults w →
                usable_hit w0 id = None → (AdService.GetAdByID id w0).1 = Ok ad) as Hget.
  { intros w0 Hm Hf Hno. rewrite GetAdByID_run, Hno.
    unfold store_read. rewrite Hf, Hup, Hm, Hrow.
    by destruct (json_Marshal ad). }
  split.
  - intros Hc. apply Hget; [done..|]. by apply usable_hit_None.
  - intros down_1 down_2 rf. by apply Hget.
Qed.

(** C4, as the code has it.  When the table has no row [id] and MySQL
    answers, [GetAdByID id] fails with [sql.ErrNoRows] provided the cache
    holds no entry for the id that can be used; nothing is then written to
    the cache.  An entry that is still cached is returned instead, without
    the store being asked.  Either way the cache is left as it was. *)
Theorem get_not_found_without_hit (w : World) (id : Z) :
  rows (mysql w) !! id = None →
  next_fault (mysql_faults w) = None →
  let r := (AdService.GetAdByID id w).1 in
  let w' := (AdService.GetAdByID id w).2 in
  match usable_hit w id with
  | None =>
      r = Err sql_ErrNoRows ∧
      trace w' = trace w ++ [EvRedisGet (cache_key id); EvSqlQuery select_by_id [VInt id]]
  | Some ad => r = Ok ad ∧ trace w' = trace w ++ [EvRedisGet (cache_key id)]
  end ∧ redis w' = redis w.
Proof.
  intros Hrow Hup. cbv zeta. rewrite GetAdByID_run.
  destruct (usable_hit w id) as [ad|]; [by cbn|].
  unfold store_read. rewrite Hup, Hrow. cbn. by rewrite <- app_assoc.
Qed.

End reads.

(** ** Mutations *)

Lemma AdService_UpdateAd_run (id : Z) (ad : Ad) (w : World) :
  AdService.UpdateAd id ad w =
    match (Repository.UpdateAd id ad w).1 with
    | Some err => (Some err, (Repository.UpdateAd id ad w).2)
    | None => (None, (Cache.Delete (cache_key id) (Repository.UpdateAd id ad w).2).2)
    end.
Proof.
  unfold AdService.UpdateAd. fold (cache_key id). unfold_bind.
  destruct (Repository.UpdateAd id ad w) as [[err|] w1]; cbn [fst snd].
  - unfold errors_Is. case_bool_decide; by subst.
  - by destruct (Cache.Delete (cache_key id) w1).
Qed.

Lemma AdService_DeleteAd_run (id : Z) (w : World) :
  AdService.DeleteAd id w =
    match (Repository.DeleteAd id w).1 with
    | Some err => (Some err, (Repository.DeleteAd id w).2)
    | None => (None, (Cache.Delete (cache_key id) (Repository.DeleteAd id w).2).2)
    end.
Proof.
  unfold AdService.DeleteAd. fold (cache_key id). unfold_bind.
  destruct (Repository.DeleteAd id w) as [[err|] w1]; cbn [fst snd].
  - unfold errors_Is. case_bool_decide; by subst.
  - by destruct (Cache.Delete (cache_key id) w1).
Qed.

Lemma mysql_update_rows (id : Z) (new : Ad → Ad) (d : DB) :
  RowsAffected (mysql_update id new d).1 = Ok 0 ∨
  RowsAffected (mysql_update id new d).1 = Ok 1.
Proof.
  unfold mysql_update. destruct (rows d !! id) as [old|]; [|by left].
  destruct (same_columns old (new old)); [by left|by right].
Qed.

(** The server counts the rows it changed: none or one, the id being the
    primary key. *)
Lemma mysql_exec_rows (q : string) (args : list SqlValue) (d d' : DB) (result : sql_Result) :
  mysql_exec q args d = Ok (result, d') →
  RowsAffected result = Ok 0 ∨ RowsAffected result = Ok 1.
Proof.
  unfold mysql_exec. intros Hexec.
  repeat case_match; try discriminate; simplify_eq; cbn; eauto using mysql_update_rows.
  all: match goal with
       | H : mysql_update ?i ?f ?d = _ |- _ =>
           pose proof (mysql_update_rows i f d) as Hr; by rewrite H in Hr
       end.
Qed.

Lemma mysql_update_zero (id : Z) (new : Ad → Ad) (d : DB) :
  RowsAffected (mysql_update id new d).1 = Ok 0 → (mysql_update id new d).2 = d.
Proof.
  unfold mysql_update. destruct (rows d !! id) as [old|]; [|done].
  by destruct (same_columns old (new old)).
Qed.

(** A statement that changed no row left the table as it was. *)
Lemma mysql_exec_zero (q : string) (args : list SqlValue) (d d' : DB) (result : sql_Result) :
  mysql_exec q args d = Ok (result, d') → RowsAffected result = Ok 0 → d' = d.
Proof.
  unfold mysql_exec. intros Hexec.
  repeat case_match; try discriminate; simplify_eq; cbn; try done.
  all: match goal with
       | H : mysql_update ?i ?f ?d = _ |- _ =>
           pose proof (mysql_update_zero i f d) as Hz; rewrite H in Hz; cbn in Hz;
           intros Hn; by rewrite Hz
       end.
Qed.

Lemma ExecContext_rows (q : string) (args : list SqlValue) (w : World) (result : sql_Result) :
  (sql_DB.ExecContext q args w).1 = Ok result →
  RowsAffected result = Ok 0 ∨ RowsAffected result = Ok 1.
Proof.
  rewrite ExecContext_run. destruct (next_fault (mysql_faults w)); [discriminate|].
  destruct (mysql_exec q args (mysql w)) as [[result' d']|err] eqn:Hexec; [|discriminate].
  cbn. intros [= ->]. eauto using mysql_exec_rows.
Qed.

Lemma mutation_error_None (what q : string) (args : list SqlValue) (w : World) :
  mutation_error what (sql_DB.ExecContext q args w).1 = None ↔
  some_rows (sql_DB.ExecContext q args w).1.
Proof.
  unfold mutation_error, some_rows. split.
  - destruct (sql_DB.ExecContext q args w).1 as [result|err] eqn:Hexec; [|discriminate].
    destruct (ExecContext_rows _ _ _ _ Hexec) as [Hn|Hn]; rewrite Hn; [discriminate|].
    intros _. exists result, 1. by repeat split.
  - intros (result & n & -> & -> & Hn). destruct (Z.eqb_spec n 0); [lia|done].
Qed.

Lemma ExecContext_trace (q : string) (args : list SqlValue) (w : World) :
  trace (sql_DB.ExecContext q args w).2 = trace w ++ [EvSqlExec q args] ∧
  redis (sql_DB.ExecContext q args w).2 = redis w ∧
  redis_faults (sql_DB.ExecContext q args w).2 = redis_faults w.
Proof.
  rewrite ExecContext_run. destruct (next_fault (mysql_faults w)); [done|].
  by destruct (mysql_exec q args (mysql w)) as [[result d']|err].
Qed.

Lemma ExecContext_cache_blind (q : string) (args : list SqlValue) (w : World)
    (rf : list (option string)) :
  sql_DB.ExecContext q args (with_redis_faults rf w) =
    ((sql_DB.ExecContext q args w).1,
     with_redis_faults rf (sql_DB.ExecContext q args w).2).
Proof.
  rewrite !ExecContext_run. cbn [with_redis_faults mysql_faults mysql].
  destruct (next_fault (mysql_faults w)); [done|].
  by destruct (mysql_exec q args (mysql w)) as [[result d']|err].
Qed.

Lemma Cache_Delete_frame (key : string) (w : World) :
  trace (Cache.Delete key w).2 = trace w ++ [EvRedisDel key] ∧
  mysql (Cache.Delete key w).2 = mysql w ∧
  redis (Cache.Delete key w).2 =
    match next_fault (redis_faults w) with
    | Some _ => redis w
    | None => delete key (redis w)
    end.
Proof. rewrite Cache_Delete_run. by destruct (next_fault (redis_faults w)). Qed.

Lemma ExecContext_error_keeps_table (what q : string) (args : list SqlValue) (w : World)
    (err : error) :
  mutation_error what (sql_DB.ExecContext q args w).1 = Some err →
  mysql (sql_DB.ExecContext q args w).2 = mysql w.
Proof.
  rewrite ExecContext_run. destruct (next_fault (mysql_faults w)); [done|].
  destruct (mysql_exec q args (mysql w)) as [[result d']|e] eqn:Hexec; [|done].
  cbn. destruct (mysql_exec_rows _ _ _ _ _ Hexec) as [Hn|Hn]; rewrite Hn; [|done].
  intros _. eauto using mysql_exec_zero.
Qed.

(** A mutation is one statement, then the invalidation if the statement
    changed a row. *)
Lemma mutation_run (what q : string) (args : list SqlValue) (id : Z)
    (op : M (option error)) :
  (∀ w, op w =
     match mutation_error what (sql_DB.ExecContext q args w).1 with
     | Some err => (Some err, (sql_DB.ExecContext q args w).2)
     | None => (None, (Cache.Delete (cache_key id) (sql_DB.ExecContext q args w).2).2)
     end) →
  ∀ w, store_then_cache op w id ∧ cache_blind op w.
Proof.
  intros Hop w. split.
  - exists q, args. rewrite (Hop w).
    destruct (ExecContext_trace q args w) as (Htrace & Hredis & Hfaults).
    destruct (mutation_error what _) as [err|] eqn:Herr; cbn [fst snd];
      [by eauto using ExecContext_error_keeps_table|].
    destruct (Cache_Delete_frame (cache_key id) (sql_DB.ExecContext q args w).2)
      as (Hdel & _ & Hkeys).
    rewrite Hdel, Hkeys, Htrace, Hredis, Hfaults, <- app_assoc.
    split; [done|]. split; [|done]. by apply (mutation_error_None what).
  - intros rf. rewrite (Hop (with_redis_faults rf w)), (Hop w).
    rewrite ExecContext_cache_blind. cbn [fst snd].
    destruct (mutation_error what _) as [err|]; cbn [fst snd]; [done|].
    split; [done|].
    by rewrite (proj1 (proj2 (Cache_Delete_frame _ _))),
               (proj1 (proj2 (Cache_Delete_frame _ _))).
Qed.

Lemma UpdateAd_as_mutation (id : Z) (ad : Ad) (w : World) :
  AdService.UpdateAd id ad w =
    match mutation_error "update"
            (sql_DB.ExecContext (update_call id ad).1 (update_call id ad).2 w).1 with
    | Some err =>
        (Some err, (sql_DB.ExecContext (update_call id ad).1 (update_call id ad).2 w).2)
    | None =>
        (None,
         (Cache.Delete (cache_key id)
            (sql_DB.ExecContext (update_call id ad).1 (update_call id ad).2 w).2).2)
    end.
Proof.
  rewrite AdService_UpdateAd_run, Repository_UpdateAd_run.
  destruct (update_call id ad) as [q args]. cbn [fst snd].
  by destruct (sql_DB.ExecContext q args w).
Qed.

Lemma DeleteAd_as_mutation (id : Z) (w : World) :
  AdService.DeleteAd id w =
    match mutation_error "delete"
            (sql_DB.ExecContext "DELETE FROM ads WHERE id = ?" [VInt id] w).1 with
    | Some err =>
        (Some err, (sql_DB.ExecContext "DELETE FROM ads WHERE id = ?" [VInt id] w).2)
    | None =>
        (None,
         (Cache.Delete (cache_key id)
            (sql_DB.ExecContext "DELETE FROM ads WHERE id = ?" [VInt id] w).2).2)
    end.
Proof.
  rewrite AdService_DeleteAd_run, Repository_DeleteAd_run.
  by destruct (sql_DB.ExecContext _ _ w).
Qed.

(** C3. [UpdateAd id ad] and [DeleteAd id] write to the store first: the
    first backend call of either is its SQL statement; the deletion of the
    key ["ad_" ++ Itoa id] from Redis follows it, and happens only when the
    statement went through and changed a row, in which case the mutation
    reports success whether the deletion succeeds or not.  A mutation that
    reports an error has made no Redis call and left the keyspace as it was.
    No failure of Redis changes the result or the table. *)
Theorem mutations_write_store_first (w : World) (id : Z) (ad : Ad) :
  (store_then_cache (AdService.UpdateAd id ad) w id ∧
   cache_blind (AdService.UpdateAd id ad) w) ∧
  (store_then_cache (AdService.DeleteAd id) w id ∧
   cache_blind (AdService.DeleteAd id) w).
Proof.
  split.
  - apply (mutation_run "update" (update_call id ad).1 (update_call id ad).2).
    apply UpdateAd_as_mutation.
  - apply (mutation_run "delete" "DELETE FROM ads WHERE id = ?" [VInt id]).
    apply DeleteAd_as_mutation.
Qed.

(** C7. [UpdateAd] and [DeleteAd] fail with [ErrAdNotFound] exactly when the
    server carried their statement out and reported zero affected rows; when
    the statement itself fails they fail with another error, one that
    [errors.Is] does not take for [ErrAdNotFound]; when the server reports at
    least one affected row they succeed. *)
Theorem mutation_results (w : World) (id : Z) (ad : Ad) :
  reports (update_answer w id ad) (AdService.UpdateAd id ad w).1 ∧
  reports (delete_answer w id) (AdService.DeleteAd id w).1.
Proof.
  assert (∀ what answer, reports answer (mutation_error what answer)) as Hmap.
  { intros what answer. split; [apply mutation_error_not_found|]. split.
    - intros failure ->. eexists. by repeat split.
    - intros (result & n & -> & Hn & Hpos). unfold mutation_error. rewrite Hn.
      destruct (Z.eqb_spec n 0); [lia|done]. }
  split.
  - replace (AdService.UpdateAd id ad w).1
      with (mutation_error "update" (update_answer w id ad)); [apply Hmap|].
    rewrite UpdateAd_as_mutation. unfold update_answer.
    by destruct (mutation_error _ _).
  - replace (AdService.DeleteAd id w).1
      with (mutation_error "delete" (delete_answer w id)); [apply Hmap|].
    rewrite DeleteAd_as_mutation. unfold delete_answer.
    by destruct (mutation_error _ _).
Qed.

Lemma update_on_state (id : Z) (ad : Ad) (w : World) :
  sql_DB.ExecContext (update_call id ad).1 (update_call id ad).2 w =
    let e := EvSqlExec (update_call id ad).1 (update_call id ad).2 in
    match next_fault (mysql_faults w) with
    | Some msg => (Err (backend_error msg), after_mysql_call e (mysql w) w)
    | None =>
        (Ok (mysql_update id (updated ad) (mysql w)).1,
         after_mysql_call e (mysql_update id (updated ad) (mysql w)).2 w)
    end.
Proof.
  rewrite ExecContext_run, exec_update. cbv zeta.
  destruct (next_fault (mysql_faults w)); [done|].
  by destruct (mysql_update id (updated ad) (mysql w)).
Qed.

Lemma delete_on_state (id : Z) (w : World) :
  sql_DB.ExecContext "DELETE FROM ads WHERE id = ?" [VInt id] w =
    let e := EvSqlExec "DELETE FROM ads WHERE id = ?" [VInt id] in
    match next_fault (mysql_faults w) with
    | Some msg => (Err (backend_error msg), after_mysql_call e (mysql w) w)
    | None =>
        match rows (mysql w) !! id with
        | None => (Ok (mkResult (Ok 0) (Ok 0)), after_mysql_call e (mysql w) w)
        | Some _ =>
            (Ok (mkResult (Ok 0) (Ok 1)),
             after_mysql_call e
               (mkDB (delete id (rows (mysql w))) (auto_increment (mysql w)) (now (mysql w)))
               w)
        end
    end.
Proof.
  rewrite ExecContext_run, exec_delete. cbv zeta.
  destruct (next_fault (mysql_faults w)); [done|].
  by destruct (rows (mysql w) !! id).
Qed.

(** When the server reports zero rows: for a DELETE, the row is not there;
    for an UPDATE, it is not there or already holds the values. *)
Lemma delete_zero_rows (w : World) (id : Z) :
  zero_rows (delete_answer w id) ↔
  next_fault (mysql_faults w) = None ∧ rows (mysql w) !! id = None.
Proof.
  unfold zero_rows, delete_answer. rewrite delete_on_state. cbv zeta.
  destruct (next_fault (mysql_faults w)); [by split; [intros (? & ? & _)|intros []]|].
  destruct (rows (mysql w) !! id); cbn; split.
  - by intros (result & [= <-] & ?).
  - by intros [].
  - done.
  - intros _. by eexists.
Qed.

Lemma update_zero_rows (w : World) (id : Z) (ad : Ad) :
  zero_rows (update_answer w id ad) ↔
  next_fault (mysql_faults w) = None ∧
  match rows (mysql w) !! id with
  | None => True
  | Some old => same_columns old (updated ad old) = true
  end.
Proof.
  unfold zero_rows, update_answer. rewrite update_on_state. cbv zeta.
  destruct (next_fault (mysql_faults w)); [by split; [intros (? & ? & _)|intros []]|].
  unfold mysql_update. destruct (rows (mysql w) !! id) as [old|]; cbn.
  - destruct (same_columns old (updated ad old)); cbn; split; try done.
    + intros _. by eexists.
    + by intros (result & [= <-] & ?).
    + by intros [].
  - split; [done|]. intros _. by eexists.
Qed.

(** C6. After an [UpdateAd id ad] that reports success the row [id] holds the
    title, the description and the price of [ad]; its is_active flag is true
    if [ad.IsActive] is, and is what it was before otherwise; its id and
    created_at are what they were.  No other row has changed. *)
Theorem update_overwrites (w : World) (id : Z) (ad : Ad) :
  (AdService.UpdateAd id ad w).1 = None →
  ∃ old,
    rows (mysql w) !! id = Some old ∧
    rows (mysql (AdService.UpdateAd id ad w).2) !! id =
      Some (mkAd (ID old) (Title ad) (Description ad) (Price ad) (CreatedAt old)
                 (if IsActive ad then true else IsActive old)) ∧
    ∀ other, other ≠ id →
      rows (mysql (AdService.UpdateAd id ad w).2) !! other = rows (mysql w) !! other.
Proof.
  rewrite UpdateAd_as_mutation, update_on_state. cbv zeta.
  destruct (next_fault (mysql_faults w)); [discriminate|].
  unfold mysql_update. cbn [fst snd].
  destruct (rows (mysql w) !! id) as [old|] eqn:Hold; [|discriminate].
  destruct (same_columns old (updated ad old)); [discriminate|].
  cbn [fst snd mutation_error RowsAffected Z.eqb]. intros _.
  exists old. split; [done|].
  rewrite (proj1 (proj2 (Cache_Delete_frame _ _))). cbn.
  split; [apply lookup_insert_eq|]. intros other Hne. by apply lookup_insert_ne.
Qed.

(** C9. A missing id is reported through two different error values: with
    no row [id] in the table, MySQL answering and nothing usable cached,
    [GetAdByID] returns [sql.ErrNoRows], while [UpdateAd] and [DeleteAd]
    return [ErrAdNotFound]; the two are distinct and [errors.Is] relates
    neither to the other. *)
Theorem not_found_has_two_sentinels `{JSON} (w : World) (id : Z) (ad : Ad) :
  rows (mysql w) !! id = None →
  next_fault (mysql_faults w) = None →
  usable_hit w id = None →
  (AdService.GetAdByID id w).1 = Err sql_ErrNoRows ∧
  (AdService.UpdateAd id ad w).1 = Some ErrAdNotFound ∧
  (AdService.DeleteAd id w).1 = Some ErrAdNotFound ∧
  sql_ErrNoRows ≠ ErrAdNotFound ∧
  errors_Is sql_ErrNoRows ErrAdNotFound = false ∧
  errors_Is ErrAdNotFound sql_ErrNoRows = false.
Proof.
  intros Hrow Hup Hmiss. repeat split; try done.
  - rewrite GetAdByID_run, Hmiss. unfold store_read. by rewrite Hup, Hrow.
  - rewrite UpdateAd_as_mutation, update_on_state. cbv zeta.
    rewrite Hup. unfold mysql_update. by rewrite Hrow.
  - rewrite DeleteAd_as_mutation, delete_on_state. cbv zeta.
    by rewrite Hup, Hrow.
Qed.

(** ** Listing *)

Lemma length_insert_by (leb : Ad → Ad → bool) (x : Ad) (l : list Ad) :
  length (insert_by leb x l) = S (length l).
Proof.
  induction l as [|y l IH]; [done|]. cbn. destruct (leb x y); cbn; by rewrite ?IH.
Qed.

Lemma length_sort_by (leb : Ad → Ad → bool) (l : list Ad) :
  length (sort_by leb l) = length l.
Proof.
  unfold sort_by. induction l as [|x l IH]; [done|].
  cbn [foldr]. by rewrite length_insert_by, IH.
Qed.

Lemma length_table_scan (d : DB) : length (table_scan d) = size (rows d).
Proof.
  unfold table_scan. by rewrite length_sort_by, length_fmap, length_map_to_list.
Qed.

Lemma scan_rows_values (l ads : list Ad) :
  Repository.scan_rows (row_values <$> l) ads = (Some (ads ++ l), None).
Proof.
  revert ads. induction l as [|[i t s p c a] l IH]; intros ads.
  - by rewrite app_nil_r.
  - cbn. rewrite IH. by rewrite <- app_assoc.
Qed.

Lemma valid_sort_field (sortBy : string) :
  validSortFields sortBy = true →
  sortBy ∈ ["id"; "title"; "price"; "created_at"; "is_active"].
Proof.
  unfold validSortFields. cbn [assoc].
  repeat match goal with
         | |- context [String.eqb sortBy ?s] =>
             destruct (String.eqb_spec sortBy s) as [?|?];
             [subst; intros _; apply list_elem_of_In; cbn; tauto|]
         end.
  cbn. discriminate.
Qed.

Lemma query_page (sortBy order : string) (limit offset : Z) (d : DB) :
  validSortFields sortBy = true →
  order = "asc" ∨ order = "desc" →
  ∃ c dir,
    mysql_query
      ("SELECT id, title, description, price, created_at, is_active FROM ads ORDER BY "
         +:+ sortBy +:+ " " +:+ order +:+ " LIMIT ? OFFSET ?")
      [VInt limit; VInt offset] d =
    if (limit <? 0) || (offset <? 0) then Err syntax_error
    else Ok (row_values <$>
               take (Z.to_nat limit)
                 (drop (Z.to_nat offset) (sort_by (order_leb c dir) (table_scan d)))).
Proof.
  intros Hs%valid_sort_field Ho.
  repeat (apply elem_of_cons in Hs as [->|Hs]); [..|by apply elem_of_nil in Hs];
    destruct Ho as [-> | ->]; eexists _, _; reflexivity.
Qed.

Lemma wrap_int_fits (z : Z) : min_int ≤ z ≤ max_int → wrap_int z = z.
Proof.
  unfold wrap_int, min_int, max_int. intros Hz.
  rewrite Z.mod_small; lia.
Qed.

Lemma Repository_GetAllAds_run (page limit : Z) (sortBy order : string) (w : World) :
  (Repository.GetAllAds page limit sortBy order w).1 =
    match
      (sql_DB.QueryContext
         ("SELECT id, title, description, price, created_at, is_active FROM ads ORDER BY "
            +:+ sortBy +:+ " " +:+ order +:+ " LIMIT ? OFFSET ?")
         [VInt limit; VInt (wrap_int ((page - 1) * limit))] w).1
    with
    | Err err => (None, Some err)
    | Ok rs => Repository.scan_rows rs []
    end.
Proof.
  unfold Repository.GetAllAds. unfold_bind.
  by destruct (sql_DB.QueryContext _ _ w) as [[rs|err] w'].
Qed.

Lemma AdService_GetAllAds_run (page limit : Z) (sortBy order : string) (w : World) :
  (AdService.GetAllAds page limit sortBy order w).1 =
    match (Repository.GetAllAds page limit sortBy order w).1 with
    | (_, Some err) => (None, Some err)
    | (ads, None) => (ads, None)
    end.
Proof.
  unfold AdService.GetAllAds. unfold_bind.
  by destruct (Repository.GetAllAds page limit sortBy order w) as [[ads [err|]] w'].
Qed.

(** C10. A listing that matches no record is an empty list, not an error and
    not a nil slice: whenever the server answers the SELECT of [GetAllAds]
    with zero rows, the result is [[]Ad{}] with a nil error.  The server does
    so for an empty table and for a page past the last record: for a sort
    field and an order the handler lets through, a page and a limit that are
    positive and whose offset [(page - 1) * limit] fits an int, and MySQL
    answering, the answer has zero rows as soon as the offset is at or past
    the number of rows. *)
Theorem empty_page_is_an_empty_list (w : World) (page limit : Z) (sortBy order : string) :
  let answer :=
    (sql_DB.QueryContext
       ("SELECT id, title, description, price, created_at, is_active FROM ads ORDER BY "
          +:+ sortBy +:+ " " +:+ order +:+ " LIMIT ? OFFSET ?")
       [VInt limit; VInt (wrap_int ((page - 1) * limit))] w).1 in
  (answer = Ok [] →
   (AdService.GetAllAds page limit sortBy order w).1 = (Some [], None)) ∧
  (validSortFields sortBy = true →
   order = "asc" ∨ order = "desc" →
   0 < page → 0 < limit → (page - 1) * limit ≤ max_int →
   next_fault (mysql_faults w) = None →
   Z.of_nat (size (rows (mysql w))) ≤ (page - 1) * limit →
   answer = Ok []).
Proof.
  cbv zeta. split.
  - intros Hanswer.
    by rewrite AdService_GetAllAds_run, Repository_GetAllAds_run, Hanswer.
  - intros Hs Ho Hpage Hlimit Hfits Hup Hpast.
    rewrite QueryContext_run, Hup. cbn [fst].
    rewrite wrap_int_fits by (unfold min_int; nia).
    destruct (query_page sortBy order limit ((page - 1) * limit) (mysql w) Hs Ho)
      as (c & dir & ->).
    replace ((limit <? 0) || ((page - 1) * limit <? 0)) with false
      by (symmetry; apply orb_false_iff; split; apply Z.ltb_ge; nia).
    rewrite drop_ge by (rewrite length_sort_by, length_table_scan; lia).
    by rewrite take_nil.
Qed.

(** ** Creation *)

Lemma Repository_AddAd_run (ad : Ad) (w : World) :
  Repository.AddAd ad w =
    let insert :=
      EvSqlExec "INSERT INTO ads (title, description, price, is_active) VALUES (?, ?, ?, ?)"
        [VString (Title ad); VString (Description ad); VFloat (Price ad);
         VBool (IsActive ad)] in
    match next_fault (mysql_faults w) with
    | Some msg =>
        ((ad, Some (fmt_Errorf ("could not insert ad: " +:+ msg))),
         after_mysql_call insert (mysql w) w)
    | None =>
        let id := auto_increment (mysql w) in
        let w2 :=
          after_mysql_call (EvSqlQuery "SELECT created_at FROM ads WHERE id = ?" [VInt id])
            (inserted ad (mysql w)) (after_mysql_call insert (inserted ad (mysql w)) w) in
        match next_fault (tail (mysql_faults w)) with
        | Some msg =>
            ((ad, Some (fmt_Errorf ("could not retrieve created_at: " +:+ msg))), w2)
        | None =>
            ((mkAd id (Title ad) (Description ad) (Price ad) (now (mysql w)) (IsActive ad),
              None), w2)
        end
    end.
Proof.
  unfold Repository.AddAd, sql_DB.QueryRowContext. unfold_bind.
  rewrite ExecContext_run, exec_insert.
  destruct (next_fault (mysql_faults w)); [done|].
  cbn [LastInsertId]. rewrite QueryContext_run.
  cbn [after_mysql_call mysql_faults mysql].
  destruct (next_fault (tail (mysql_faults w))); [done|].
  rewrite query_created_at. cbn [rows]. by rewrite lookup_insert_eq.
Qed.

Lemma AdService_AddAd_run (ad : Ad) (w : World) :
  AdService.AddAd ad w = Repository.AddAd ad w.
Proof.
  unfold AdService.AddAd. unfold_bind.
  by destruct (Repository.AddAd ad w) as [[ad' [err|]] w'].
Qed.

Lemma Itoa_inj (n m : Z) : Itoa n = Itoa m → n = m.
Proof.
  unfold Itoa. intros Heq. apply DecimalZ.to_int_inj.
  assert (∀ z, NilZero.int_of_string (NilZero.string_of_int (Z.to_int z))
               = Some (Z.to_int z)) as Hparse.
  { intros [|p|p]; [done|..]; apply NilZero.isi; cbn;
      intros [= Hnil]; by apply DecimalPos.Unsigned.to_uint_nonnil in Hnil. }
  pose proof (Hparse n) as Hn. rewrite Heq, Hparse in Hn. by injection Hn.
Qed.

Lemma cache_key_inj (n m : Z) : cache_key n = cache_key m → n = m.
Proof. unfold cache_key. intros [= Heq]. by apply Itoa_inj. Qed.

(** ** Unused ids stay free *)

Lemma free_same_backends (w w' : World) :
  mysql w' = mysql w → redis w' = redis w →
  unused_ids_are_free w → unused_ids_are_free w'.
Proof. unfold unused_ids_are_free. by intros -> ->. Qed.

Lemma free_after_delete (w w' : World) (key : string) :
  mysql w' = mysql w →
  redis w' = redis w ∨ redis w' = delete key (redis w) →
  unused_ids_are_free w → unused_ids_are_free w'.
Proof.
  unfold unused_ids_are_free. intros -> Hredis Hfree id Hid.
  destruct (Hfree id Hid) as [Hrow Hkey]. split; [done|].
  destruct Hredis as [-> | ->]; [done|].
  apply lookup_delete_None. by right.
Qed.

Lemma AddAd_keeps_free (ad : Ad) (w : World) :
  unused_ids_are_free w → unused_ids_are_free (AdService.AddAd ad w).2.
Proof.
  rewrite AdService_AddAd_run, Repository_AddAd_run. cbv zeta. intros Hfree.
  destruct (next_fault (mysql_faults w)); [by apply (free_same_backends w)|].
  assert (unused_ids_are_free
            (mkWorld (inserted ad (mysql w)) (redis w) [] [] [])) as Hins.
  { intros id Hid. cbn in Hid |- *.
    destruct (Hfree id ltac:(lia)) as [Hrow Hkey]. split; [|done].
    rewrite lookup_insert_ne by lia. done. }
  by destruct (next_fault (tail (mysql_faults w)));
    apply (free_same_backends (mkWorld (inserted ad (mysql w)) (redis w) [] [] [])).
Qed.

Lemma GetAllAds_backends (page limit : Z) (sortBy order : string) (w : World) :
  mysql (AdService.GetAllAds page limit sortBy order w).2 = mysql w ∧
  redis (AdService.GetAllAds page limit sortBy order w).2 = redis w.
Proof.
  unfold AdService.GetAllAds, Repository.GetAllAds. unfold_bind.
  rewrite QueryContext_run.
  destruct (next_fault (mysql_faults w)); [done|].
  destruct (mysql_query _ _ _) as [rs|err]; [|done].
  by destruct (Repository.scan_rows rs []) as [ads [err|]].
Qed.

Section free.
Context `{JSON}.

Lemma GetAdByID_keeps_free (id : Z) (w : World) :
  unused_ids_are_free w → unused_ids_are_free (AdService.GetAdByID id w).2.
Proof.
  rewrite GetAdByID_run. intros Hfree.
  destruct (usable_hit w id); [by apply (free_same_backends w)|].
  unfold store_read. destruct (next_fault (mysql_faults w));
    [by apply (free_same_backends w)|].
  destruct (rows (mysql w) !! id) as [ad|] eqn:Hrow;
    [|by apply (free_same_backends w)].
  destruct (json_Marshal ad) as [doc|err]; [|by apply (free_same_backends w)].
  cbn [snd]. intros id' Hid'.
  rewrite Cache_Set_mysql in Hid'. rewrite Cache_Set_mysql, Cache_Set_redis.
  change (mysql (after_store_read w id)) with (mysql w) in *.
  change (redis (after_store_read w id)) with (redis w).
  destruct (Hfree id' Hid') as [Hrow' Hkey']. split; [done|].
  destruct (next_fault _); [done|].
  rewrite lookup_insert_ne; [done|].
  intros Hsame%cache_key_inj. congruence.
Qed.

Lemma UpdateAd_keeps_free (id : Z) (ad : Ad) (w : World) :
  unused_ids_are_free w → unused_ids_are_free (AdService.UpdateAd id ad w).2.
Proof.
  rewrite UpdateAd_as_mutation, update_on_state. cbv zeta. intros Hfree.
  destruct (next_fault (mysql_faults w)); [by apply (free_same_backends w)|].
  unfold mysql_update. destruct (rows (mysql w) !! id) as [old|] eqn:Hold;
    [|by apply (free_same_backends w)].
  destruct (same_columns old (updated ad old)); [by apply (free_same_backends w)|].
  cbn [fst snd mutation_error RowsAffected Z.eqb].
  destruct (Cache_Delete_frame (cache_key id)
              (after_mysql_call (EvSqlExec (update_call id ad).1 (update_call id ad).2)
                 (mkDB (<[id:=updated ad old]> (rows (mysql w)))
                    (auto_increment (mysql w)) (now (mysql w))) w))
    as (_ & Hmysql & Hredis).
  intros id' Hid'. rewrite Hmysql, Hredis in *. cbn in Hid' |- *.
  destruct (Hfree id' Hid') as [Hrow' Hkey']. split.
  - rewrite lookup_insert_ne; [done|]. congruence.
  - destruct (next_fault (redis_faults w)); [done|].
    apply lookup_delete_None. by right.
Qed.

Lemma DeleteAd_keeps_free (id : Z) (w : World) :
  unused_ids_are_free w → unused_ids_are_free (AdService.DeleteAd id w).2.
Proof.
  rewrite DeleteAd_as_mutation, delete_on_state. cbv zeta. intros Hfree.
  destruct (next_fault (mysql_faults w)); [by apply (free_same_backends w)|].
  destruct (rows (mysql w) !! id) as [old|] eqn:Hold;
    [|by apply (free_same_backends w)].
  cbn [fst snd mutation_error RowsAffected Z.eqb].
  destruct (Cache_Delete_frame (cache_key id)
              (after_mysql_call (EvSqlExec "DELETE FROM ads WHERE id = ?" [VInt id])
                 (mkDB (delete id (rows (mysql w)))
                    (auto_increment (mysql w)) (now (mysql w))) w))
    as (_ & Hmysql & Hredis).
  intros id' Hid'. rewrite Hmysql, Hredis in *. cbn in Hid' |- *.
  destruct (Hfree id' Hid') as [Hrow' Hkey']. split.
  - apply lookup_delete_None. by right.
  - destruct (next_fault (redis_faults w)); [done|].
    apply lookup_delete_None. by right.
Qed.

Lemma serve_keeps_free (c : Call) (w : World) :
  unused_ids_are_free w → unused_ids_are_free (serve c w).
Proof.
  destruct c as [ad|page limit sortBy order|id|id ad|id]; cbn [serve].
  - apply AddAd_keeps_free.
  - destruct (GetAllAds_backends page limit sortBy order w) as [Hm Hr].
    by apply free_same_backends.
  - apply GetAdByID_keeps_free.
  - apply UpdateAd_keeps_free.
  - apply DeleteAd_keeps_free.
Qed.

Lemma serve_keeps_clock (c : Call) (w : World) :
  now (mysql (serve c w)) = now (mysql w).
Proof.
  destruct c as [ad|page limit sortBy order|id|id ad|id]; cbn [serve].
  - rewrite AdService_AddAd_run, Repository_AddAd_run. cbv zeta.
    destruct (next_fault (mysql_faults w)); [done|].
    by destruct (next_fault (tail (mysql_faults w))).
  - by rewrite (proj1 (GetAllAds_backends page limit sortBy order w)).
  - rewrite GetAdByID_run. destruct (usable_hit w id); [done|].
    destruct (store_read w id) as [ad|err]; [|done].
    destruct (json_Marshal ad); [|done]. cbn [snd]. by rewrite Cache_Set_mysql.
  - rewrite UpdateAd_as_mutation, update_on_state. cbv zeta.
    destruct (next_fault (mysql_faults w)); [done|].
    unfold mysql_update. destruct (rows (mysql w) !! id) as [old|]; [|done].
    destruct (same_columns old (updated ad old)); [done|].
    cbn [fst snd mutation_error RowsAffected Z.eqb].
    by rewrite (proj1 (proj2 (Cache_Delete_frame _ _))).
  - rewrite DeleteAd_as_mutation, delete_on_state. cbv zeta.
    destruct (next_fault (mysql_faults w)); [done|].
    destruct (rows (mysql w) !! id) as [old|]; [|done].
    cbn [fst snd mutation_error RowsAffected Z.eqb].
    by rewrite (proj1 (proj2 (Cache_Delete_frame _ _))).
Qed.

(** In every reachable world the ids from [auto_increment] on are unused and
    the clock is past Go's zero instant. *)
Lemma reachable_free (w : World) :
  reachable w → unused_ids_are_free w ∧ now (mysql w) ≠ time_zero.
Proof.
  induction 1 as [clock mf rf Hclock|c w _ [IHfree IHclock]|t w Ht _ [IHfree IHclock]
                 |key w _ [IHfree IHclock]|mf rf w _ [IHfree IHclock]].
  - split; [|done]. intros id _. split; apply lookup_empty.
  - split; [by apply serve_keeps_free|by rewrite serve_keeps_clock].
  - split; [|done]. intros id Hid. apply (IHfree id Hid).
  - split; [|done]. by apply (free_after_delete w _ key); [|right|].
  - split; [|done]. by apply (free_same_backends w).
Qed.

End free.

(** C5. In a world the service can be in, an [AddAd ad] that succeeds hands
    back [ad] with its title, description, price and is_active as given, its
    id set to the id the table assigned and its created_at set to the server
    clock, which is not Go's zero instant; the call makes no Redis call and
    leaves the keyspace alone.  A [GetAdByID] of the assigned id right after
    it returns that same Ad whenever MySQL answers, and never any other Ad. *)
Theorem create_then_get `{JSON} (w : World) (ad : Ad) :
  reachable w →
  (AdService.AddAd ad w).1.2 = None →
  let created := (AdService.AddAd ad w).1.1 in
  let w1 := (AdService.AddAd ad w).2 in
  (Title created = Title ad ∧ Description created = Description ad ∧
   Price created = Price ad ∧ IsActive created = IsActive ad) ∧
  (ID created = auto_increment (mysql w) ∧ CreatedAt created = now (mysql w) ∧
   IsZero (CreatedAt created) = false) ∧
  (List.filter is_cache_event (new_events w w1) = [] ∧ redis w1 = redis w ∧
   redis_faults w1 = redis_faults w) ∧
  (next_fault (mysql_faults w1) = None →
   (AdService.GetAdByID (ID created) w1).1 = Ok created) ∧
  (∀ got, (AdService.GetAdByID (ID created) w1).1 = Ok got → got = created).
Proof.
  intros [Hfree Hclock]%reachable_free.
  rewrite AdService_AddAd_run, Repository_AddAd_run. cbv zeta.
  destruct (next_fault (mysql_faults w)); [discriminate|].
  destruct (next_fault (tail (mysql_faults w))); [discriminate|].
  intros _. cbn [fst snd ID Title Description Price CreatedAt IsActive].
  set (id := auto_increment (mysql w)).
  set (created := mkAd id (Title ad) (Description ad) (Price ad) (now (mysql w))
                       (IsActive ad)).
  set (w1 := after_mysql_call _ _ _).
  assert (usable_hit w1 id = None) as Hmiss.
  { unfold usable_hit. destruct (next_fault (redis_faults w1)); [done|].
    change (redis w1) with (redis w).
    by rewrite (proj2 (Hfree id ltac:(reflexivity))). }
  assert (rows (mysql w1) !! id = Some created) as Hrow by apply lookup_insert_eq.
  repeat split.
  - unfold IsZero. by apply Z.eqb_neq.
  - unfold new_events. cbn [w1 after_mysql_call trace].
    by rewrite <- app_assoc, drop_app_length.
  - intros Hup. rewrite GetAdByID_run, Hmiss. unfold store_read.
    rewrite Hup, Hrow. by destruct (json_Marshal created).
  - intros got. rewrite GetAdByID_run, Hmiss. unfold store_read. rewrite Hrow.
    destruct (next_fault (mysql_faults w1)); [discriminate|].
    destruct (json_Marshal created); cbn; congruence.
Qed.

(** ** The handlers *)

Lemma digit_of_value (c : ascii) : digit_of c = digit_value c.
Proof. by destruct c as [[] [] [] [] [] [] [] []]. Qed.

Lemma foldl_digits_None (l : list ascii) :
  foldl (λ acc c, a ← acc; d ← digit_value c; Some (a * 10 + d)) None l = None.
Proof. by induction l. Qed.

Lemma parse_digits_foldl (s : string) (acc : Z) :
  parse_digits acc s =
    foldl (λ acc c, a ← acc; d ← digit_value c; Some (a * 10 + d))
          (Some acc) (list_ascii_of_string s).
Proof.
  revert acc. induction s as [|c s IH]; intros acc; [done|].
  cbn [parse_digits list_ascii_of_string foldl]. rewrite digit_of_value.
  destruct (digit_value c) as [d|]; cbn; [apply IH|].
  by rewrite foldl_digits_None.
Qed.

Lemma parse_digits_value (s : string) :
  s ≠ "" → parse_digits 0 s = digits_value s.
Proof.
  intros Hs. unfold digits_value.
  destruct (String.eqb_spec s ""); [done|]. apply parse_digits_foldl.
Qed.

(** What [Atoi] accepts denotes the number it returns. *)
Lemma Atoi_value (s : string) (n : Z) : Atoi s = (n, None) → int_value s = Some n.
Proof.
  destruct s as [|c rest]; [discriminate|]. unfold Atoi, int_value, is_sign.
  destruct (Ascii.eqb c "-") eqn:Hminus; cbn [orb].
  - destruct rest as [|c' rest']; [discriminate|].
    rewrite parse_digits_value by done.
    destruct (digits_value _) as [m|]; [|discriminate].
    repeat case_match; intros [= <-]; done.
  - destruct (Ascii.eqb c "+") eqn:Hplus.
    + destruct rest as [|c' rest']; [discriminate|].
      rewrite parse_digits_value by done.
      destruct (digits_value _) as [m|]; [|discriminate].
      repeat case_match; intros [= <-]; done.
    + rewrite parse_digits_value by done.
      destruct (digits_value _) as [m|]; [|discriminate].
      repeat case_match; intros [= <-]; done.
Qed.

Lemma Atoi_rejects (s : string) :
  not_a_positive_number s →
  not_nil (Atoi s).2 || ((Atoi s).1 <=? 0) = true.
Proof.
  unfold not_a_positive_number. intros Hbad.
  destruct (Atoi s) as [n [err|]] eqn:Hparse; [done|].
  rewrite (Atoi_value _ _ Hparse) in Hbad. cbn. by apply Z.leb_le.
Qed.

Lemma Atoi_accepts (s : string) (n : Z) :
  Atoi s = (n, None) → 0 < n → not_nil (Atoi s).2 || ((Atoi s).1 <=? 0) = false.
Proof. intros -> Hn. cbn. by apply Z.leb_gt. Qed.

Section handlers.
Context `{JSON}.

Lemma GetAdByID_rejects (c : Request) (w : World) :
  bad_id c → rejects Handler.GetAdByID c w.
Proof.
  intros Hbad%Atoi_rejects. unfold rejects, Handler.GetAdByID.
  destruct (Atoi (Param c "id")) as [id err]. cbn [fst snd] in Hbad. by rewrite Hbad.
Qed.

Lemma DeleteAd_rejects (c : Request) (w : World) :
  bad_id c → rejects Handler.DeleteAd c w.
Proof.
  intros Hbad%Atoi_rejects. unfold rejects, Handler.DeleteAd.
  destruct (Atoi (Param c "id")) as [id err]. cbn [fst snd] in Hbad. by rewrite Hbad.
Qed.

Lemma bad_ad_check (ad : Ad) :
  Title ad = "" ∨ Description ad = "" ∨ PrimFloat.leb (Price ad) 0 = true →
  String.eqb (Title ad) "" || String.eqb (Description ad) "" = true ∨
  PrimFloat.leb (Price ad) 0 = true.
Proof.
  intros [Ht|[Hd|Hp]]; [left|left|by right].
  - by rewrite Ht.
  - rewrite Hd. apply orb_true_r.
Qed.

Lemma AddAd_rejects (c : Request) (w : World) :
  bad_ad c → rejects Handler.AddAd c w.
Proof.
  intros (ad & Hbind & Hbad%bad_ad_check). unfold rejects, Handler.AddAd.
  rewrite Hbind. destruct Hbad as [-> | Hprice]; [done|].
  destruct (String.eqb (Title ad) "" || _); [done|]. by rewrite Hprice.
Qed.

Lemma UpdateAd_rejects (c : Request) (w : World) :
  bad_id c ∨ bad_ad c → rejects Handler.UpdateAd c w.
Proof.
  unfold rejects, Handler.UpdateAd. intros Hbad.
  destruct (Atoi (Param c "id")) as [id err] eqn:Hparse.
  destruct (not_nil err || (id <=? 0)) eqn:Hid; [done|].
  destruct Hbad as [Hbad%Atoi_rejects|(ad & Hbind & Hbad%bad_ad_check)].
  - rewrite Hparse in Hbad. cbn [fst snd] in Hbad. congruence.
  - rewrite Hbind. destruct Hbad as [-> | Hprice]; [done|].
    destruct (String.eqb (Title ad) "" || _); [done|]. by rewrite Hprice.
Qed.

Lemma GetAllAds_rejects (c : Request) (w : World) :
  bad_paging c ∨ bad_sorting c → rejects Handler.GetAllAds c w.
Proof.
  unfold rejects, Handler.GetAllAds. intros Hbad.
  destruct (Atoi (DefaultQuery c "page" "1")) as [page e1] eqn:Hpage.
  destruct (not_nil e1 || (page <=? 0)) eqn:Hp; [done|].
  destruct (Atoi (DefaultQuery c "limit" "10")) as [limit e2] eqn:Hlimit.
  destruct (not_nil e2 || (limit <=? 0)) eqn:Hl; [done|].
  destruct (validSortFields _) eqn:Hsort; [|done]. cbn [negb].
  destruct (String.eqb_spec (DefaultQuery c "order" "asc") "asc") as [Hasc|Hasc];
    destruct (String.eqb_spec (DefaultQuery c "order" "asc") "desc") as [Hdesc|Hdesc];
    cbn [negb andb]; try done; exfalso.
  all: destruct Hbad as [[Hbad%Atoi_rejects|Hbad%Atoi_rejects]|[Hbad|Hbad]];
    [rewrite Hpage in Hbad; cbn [fst snd] in Hbad; congruence
    |rewrite Hlimit in Hbad; cbn [fst snd] in Hbad; congruence
    |by apply Hbad, valid_sort_field
    |apply Hbad; rewrite ?Hasc, ?Hdesc; apply list_elem_of_In; cbn; tauto].
Qed.

Lemma is_not_found (e : error) :
  errors_Is e ErrAdNotFound = bool_decide (Some e = Some ErrAdNotFound).
Proof. unfold errors_Is. repeat case_bool_decide; congruence. Qed.

Lemma GetAdByID_answers (c : Request) (w : World) (id : Z) :
  good_id c id →
  status (Handler.GetAdByID c w).1 =
    status_for (Some sql_ErrNoRows) StatusOK (error_of (AdService.GetAdByID id w).1) ∧
  (Handler.GetAdByID c w).2 = (AdService.GetAdByID id w).2.
Proof.
  intros [Hparse Hpos]. unfold Handler.GetAdByID.
  pose proof (Atoi_accepts _ _ Hparse Hpos) as Hok. rewrite Hparse in Hok |- *.
  cbn [fst snd] in Hok. rewrite Hok. unfold_bind.
  destruct (AdService.GetAdByID id w) as [[ad|err] w']; [done|].
  cbn [error_of status_for fst snd].
  repeat case_bool_decide; done || congruence.
Qed.

Lemma AddAd_answers (c : Request) (w : World) (ad : Ad) :
  good_ad c ad →
  status (Handler.AddAd c w).1 =
    status_for None StatusCreated (AdService.AddAd ad w).1.2 ∧
  (Handler.AddAd c w).2 = (AdService.AddAd ad w).2.
Proof.
  intros (Hbind & Ht%String.eqb_neq & Hd%String.eqb_neq & Hprice).
  unfold Handler.AddAd. rewrite Hbind, Ht, Hd, Hprice. cbn [orb]. unfold_bind.
  by destruct (AdService.AddAd ad w) as [[ad' [err|]] w'].
Qed.

Lemma GetAllAds_answers (c : Request) (w : World) (page limit : Z) (sortBy order : string) :
  good_listing c page limit sortBy order →
  status (Handler.GetAllAds c w).1 =
    status_for None StatusOK (AdService.GetAllAds page limit sortBy order w).1.2 ∧
  (Handler.GetAllAds c w).2 = (AdService.GetAllAds page limit sortBy order w).2.
Proof.
  intros (Hpage & Hp & Hlimit & Hl & -> & Hsort & -> & Horder).
  unfold Handler.GetAllAds.
  pose proof (Atoi_accepts _ _ Hpage Hp) as Hok1. rewrite Hpage in Hok1 |- *.
  pose proof (Atoi_accepts _ _ Hlimit Hl) as Hok2. rewrite Hlimit in Hok2 |- *.
  cbn [fst snd] in Hok1, Hok2. rewrite Hok1, Hok2, Hsort. cbn [negb].
  replace (negb (String.eqb (DefaultQuery c "order" "asc") "asc")
           && negb (String.eqb (DefaultQuery c "order" "asc") "desc")) with false
    by (by destruct Horder as [-> | ->]).
  unfold_bind.
  by destruct (AdService.GetAllAds _ _ _ _ w) as [[ads [err|]] w'].
Qed.

Lemma UpdateAd_answers (c : Request) (w : World) (id : Z) (ad : Ad) :
  good_id c id → good_ad c ad →
  status (Handler.UpdateAd c w).1 =
    status_for (Some ErrAdNotFound) StatusOK (AdService.UpdateAd id ad w).1 ∧
  (Handler.UpdateAd c w).2 = (AdService.UpdateAd id ad w).2.
Proof.
  intros [Hparse Hpos] (Hbind & Ht%String.eqb_neq & Hd%String.eqb_neq & Hprice).
  unfold Handler.UpdateAd.
  pose proof (Atoi_accepts _ _ Hparse Hpos) as Hok. rewrite Hparse in Hok |- *.
  cbn [fst snd] in Hok. rewrite Hok, Hbind, Ht, Hd, Hprice. cbn [orb]. unfold_bind.
  destruct (AdService.UpdateAd id ad w) as [[err|] w']; [|done].
  cbn [status_for fst snd]. rewrite is_not_found. by case_bool_decide.
Qed.

Lemma DeleteAd_answers (c : Request) (w : World) (id : Z) :
  good_id c id →
  status (Handler.DeleteAd c w).1 =
    status_for (Some ErrAdNotFound) StatusOK (AdService.DeleteAd id w).1 ∧
  (Handler.DeleteAd c w).2 = (AdService.DeleteAd id w).2.
Proof.
  intros [Hparse Hpos]. unfold Handler.DeleteAd.
  pose proof (Atoi_accepts _ _ Hparse Hpos) as Hok. rewrite Hparse in Hok |- *.
  cbn [fst snd] in Hok. rewrite Hok. unfold_bind.
  destruct (AdService.DeleteAd id w) as [[err|] w']; [|done].
  cbn [status_for fst snd]. rewrite is_not_found. by case_bool_decide.
Qed.

Lemma GetAllAds_trace (page limit : Z) (sortBy order : string) (w : World) :
  ∃ e, trace (AdService.GetAllAds page limit sortBy order w).2 = trace w ++ [e].
Proof.
  unfold AdService.GetAllAds, Repository.GetAllAds. unfold_bind.
  rewrite QueryContext_run. eexists.
  destruct (next_fault (mysql_faults w)); [done|].
  destruct (mysql_query _ _ _) as [rs|err]; [|done].
  by destruct (Repository.scan_rows rs []) as [ads [err|]].
Qed.

(** Every service call reaches a backend, and so adds to the log. *)
Lemma service_calls_are_logged (call : Call) (w : World) :
  ∃ e rest, trace (serve call w) = trace w ++ e :: rest.
Proof.
  destruct call as [ad|page limit sortBy order|id|id ad|id]; cbn [serve].
  - rewrite AdService_AddAd_run, Repository_AddAd_run. cbv zeta.
    destruct (next_fault (mysql_faults w)); [by eexists _, _|].
    destruct (next_fault (tail (mysql_faults w))); cbn;
      rewrite <- app_assoc; by eexists _, _.
  - destruct (GetAllAds_trace page limit sortBy order w) as [e ->]. by eexists _, _.
  - pose proof (get_lookup_first w id) as (rest & ->). by eexists _, _.
  - destruct (mutation_run _ _ _ id _ (UpdateAd_as_mutation id ad) w)
      as [(query & args & Horder) _].
    destruct (AdService.UpdateAd id ad w).1;
      [destruct Horder as (-> & _)|destruct Horder as (-> & _)]; by eexists _, _.
  - destruct (mutation_run _ _ _ id _ (DeleteAd_as_mutation id) w)
      as [(query & args & Horder) _].
    destruct (AdService.DeleteAd id w).1;
      [destruct Horder as (-> & _)|destruct Horder as (-> & _)]; by eexists _, _.
Qed.

Lemma service_call_changes_world (call : Call) (w : World) : serve call w ≠ w.
Proof.
  destruct (service_calls_are_logged call w) as (e & rest & Htrace). intros Hsame.
  rewrite Hsame in Htrace. apply (f_equal length) in Htrace.
  rewrite length_app in Htrace. cbn in Htrace. lia.
Qed.

(** C8. The handlers answer 400 and leave the world as it was, which no
    service call does, when the id in the path is not numeric or not positive
    ([GetAdByID], [UpdateAd], [DeleteAd]), when the bound Ad has an empty
    title or description or a price that is not positive ([AddAd],
    [UpdateAd]), when page or limit is not numeric or not positive, when
    sort_by is none of id, title, price, created_at, is_active, or when order
    is neither asc nor desc ([GetAllAds]).  A request that passes these
    checks is answered from the result of the one service call it makes: the
    success status without an error, 404 for the error that stands for a
    missing ad ([sql.ErrNoRows] from [GetAdByID], [ErrAdNotFound] from
    [UpdateAd] and [DeleteAd]), 500 for any other error. *)
Theorem handlers_validate_and_map (c : Request) (w : World) :
  ((bad_id c → rejects Handler.GetAdByID c w ∧ rejects Handler.UpdateAd c w ∧
               rejects Handler.DeleteAd c w) ∧
   (bad_ad c → rejects Handler.AddAd c w ∧ rejects Handler.UpdateAd c w) ∧
   (bad_paging c ∨ bad_sorting c → rejects Handler.GetAllAds c w)) ∧
  (∀ call, serve call w ≠ w) ∧
  ((∀ id, good_id c id →
      status (Handler.GetAdByID c w).1 =
        status_for (Some sql_ErrNoRows) StatusOK (error_of (AdService.GetAdByID id w).1)) ∧
   (∀ id ad, good_id c id → good_ad c ad →
      status (Handler.UpdateAd c w).1 =
        status_for (Some ErrAdNotFound) StatusOK (AdService.UpdateAd id ad w).1) ∧
   (∀ id, good_id c id →
      status (Handler.DeleteAd c w).1 =
        status_for (Some ErrAdNotFound) StatusOK (AdService.DeleteAd id w).1) ∧
   (∀ ad, good_ad c ad →
      status (Handler.AddAd c w).1 =
        status_for None StatusCreated (AdService.AddAd ad w).1.2) ∧
   (∀ page limit sortBy order, good_listing c page limit sortBy order →
      status (Handler.GetAllAds c w).1 =
        status_for None StatusOK (AdService.GetAllAds page limit sortBy order w).1.2)).
Proof.
  split; [split; [|split]|split; [|repeat split]].
  - intros Hbad. split; [|split].
    + by apply GetAdByID_rejects.
    + apply UpdateAd_rejects. by left.
    + by apply DeleteAd_rejects.
  - intros Hbad. split.
    + by apply AddAd_rejects.
    + apply UpdateAd_rejects. by right.
  - apply GetAllAds_rejects.
  - intros call. apply service_call_changes_world.
  - intros id Hid. by apply GetAdByID_answers.
  - intros id ad Hid Had. by apply UpdateAd_answers.
  - intros id Hid. by apply DeleteAd_answers.
  - intros ad Had. by apply AddAd_answers.
  - intros page limit sortBy order Hgood. by apply GetAllAds_answers.
Qed.

End handlers.

(** * Beyond the claims *)

(** ** pkg/cache: Get, Set, Delete *)

(** X1. What [Cache.Set] stored, [Cache.Get] reads back: when Redis takes
    both calls, a [Get] of the key right after a [Set] returns the value that
    was set and a nil error, whatever the key held before. *)
Theorem cache_get_after_set (key value : string) (ttl : Duration) (w : World) :
  next_fault (redis_faults w) = None →
  next_fault (tail (redis_faults w)) = None →
  (Cache.Set_ key value ttl w).1 = None ∧
  (Cache.Get key (Cache.Set_ key value ttl w).2).1 = (value, None).
Proof.
  intros Hset Hget. rewrite Cache_Set_run, Hset. cbn [fst snd].
  rewrite Cache_Get_run. cbn. by rewrite Hget, lookup_insert_eq.
Qed.

(** X2. [Cache.Get] has no error for a missing key: it returns an error
    exactly when the Redis call fails, and then the empty string with it; the
    error is never [redis.Nil]; a key that is absent and a key that holds the
    empty string both give the empty string with a nil error, and so does a
    key that was just deleted. *)
Theorem cache_get_of_missing_key (key : string) (w : World) :
  ((Cache.Get key w).1.2 ≠ None ↔ next_fault (redis_faults w) ≠ None) ∧
  (Cache.Get key w).1.2 ≠ Some redis_Nil ∧
  ((Cache.Get key w).1.2 ≠ None → (Cache.Get key w).1.1 = "") ∧
  (next_fault (redis_faults w) = None →
   (redis w !! key = None ∨ ∃ ttl, redis w !! key = Some ("", ttl)) →
   (Cache.Get key w).1 = ("", None)) ∧
  (next_fault (redis_faults w) = None →
   next_fault (tail (redis_faults w)) = None →
   (Cache.Get key (Cache.Delete key w).2).1 = ("", None)).
Proof.
  rewrite Cache_Get_run. cbn [fst snd].
  destruct (next_fault (redis_faults w)) as [msg|] eqn:Hf.
  - repeat split; done.
  - destruct (redis w !! key) as [[value ttl]|] eqn:Hkey; cbn [fst snd].
    + repeat split; try done.
      * intros _ [|[ttl' [= -> _]]]; done.
      * intros _ Hnext. rewrite Cache_Delete_run, Hf, Cache_Get_run. cbn.
        by rewrite Hnext, lookup_delete_eq.
    + repeat split; try done.
      intros _ Hnext. rewrite Cache_Delete_run, Hf, Cache_Get_run. cbn.
      by rewrite Hnext, lookup_delete_eq.
Qed.


(** ** Start-up: retry, LoadConfig, NewCache *)

(** X4. The edges of [retry]: with no attempt allowed (zero or a negative
    count) the operation is never run and the result is nil; with a single
    attempt the operation is run once and its result passed on, without any
    sleep. *)
Theorem retry_without_retries (operation : Boot → option error * Boot)
    (attempts : Z) (delay : Duration) (b : Boot) :
  (attempts ≤ 0 → retry operation attempts delay b = (None, b)) ∧
  retry operation 1 delay b = operation b.
Proof.
  unfold retry. split.
  - intros Hn. by rewrite Z2Nat.nonpos.
  - change (Z.to_nat 1) with 1%nat. cbn [retry_from].
    destruct (operation b) as [[err|] b']; reflexivity.
Qed.

Lemma retry_from_step (operation : Boot → option error * Boot) (rounds : nat)
    (i attempts : Z) (delay : Duration) (b : Boot) :
  retry_from operation (S rounds) i attempts delay b =
    match operation b with
    | (Some err, b') =>
        if i =? attempts - 1 then (Some err, b')
        else retry_from operation rounds (i + 1) attempts delay (time_Sleep delay b')
    | (None, b') => (None, b')
    end.
Proof. cbn [retry_from]. by destruct (operation b) as [[err|] b']. Qed.

Lemma retry_from_Ping (attempts : Z) (delay : Duration) (rounds : nat) :
  ∀ (i : Z) (b : Boot), i = attempts - 1 - Z.of_nat rounds →
  retry_from Ping (S rounds) i attempts delay b =
    (if (leading_failures (ping_faults b) <=? rounds)%nat then None
     else backend_error <$> next_fault (drop rounds (ping_faults b)),
     mkBoot (viper_ReadInConfig b) (viper_Unmarshal b)
       (drop (S (min (leading_failures (ping_faults b)) rounds)) (ping_faults b))
       (slept b + Z.of_nat (min (leading_failures (ping_faults b)) rounds) * delay)).
Proof.
  induction rounds as [|rounds IH]; intros i [r u fs s] ->; rewrite retry_from_step;
    unfold Ping; cbn [ping_faults viper_ReadInConfig viper_Unmarshal slept].
  - destruct fs as [|[msg|] fs]; cbn; rewrite ?Z.add_0_r; try done.
    match goal with
    | |- context [?a =? ?c] =>
        replace (a =? c) with true by (symmetry; apply Z.eqb_eq; lia)
    end.
    by rewrite drop_0.
  - destruct fs as [|[msg|] fs]; cbn [next_fault fmap option_fmap option_map tail
      leading_failures]; rewrite ?Z.add_0_r; try done.
    match goal with
    | |- context [?a =? ?c] =>
        replace (a =? c) with false by (symmetry; apply Z.eqb_neq; lia)
    end.
    rewrite IH by lia. cbn [time_Sleep ping_faults viper_ReadInConfig
      viper_Unmarshal slept drop Nat.leb Nat.min].
    f_equal. f_equal. lia.
Qed.

Lemma retry_Ping (attempts : Z) (delay : Duration) (b : Boot) :
  1 ≤ attempts →
  retry Ping attempts delay b =
    (if Z.of_nat (leading_failures (ping_faults b)) <? attempts then None
     else backend_error <$> next_fault (drop (Z.to_nat (attempts - 1)) (ping_faults b)),
     mkBoot (viper_ReadInConfig b) (viper_Unmarshal b)
       (drop (Z.to_nat (Z.min (Z.of_nat (leading_failures (ping_faults b)) + 1) attempts))
             (ping_faults b))
       (slept b + Z.min (Z.of_nat (leading_failures (ping_faults b))) (attempts - 1) * delay)).
Proof.
  intros Hn. unfold retry.
  replace (Z.to_nat attempts) with (S (Z.to_nat (attempts - 1))) by lia.
  rewrite (retry_from_Ping attempts delay) by lia.
  set (f := leading_failures (ping_faults b)). f_equal; [|f_equal].
  - destruct (Nat.leb_spec f (Z.to_nat (attempts - 1)));
      destruct (Z.ltb_spec (Z.of_nat f) attempts); try done; lia.
  - f_equal. lia.
  - f_equal. f_equal. lia.
Qed.

Lemma leading_failure_at (fs : list (option string)) (k : nat) :
  (k < leading_failures fs)%nat →
  ∃ msg, fs !! k = Some (Some msg) ∧ next_fault (drop k fs) = Some msg.
Proof.
  revert k. induction fs as [|[msg|] fs IH]; intros k Hk; cbn in Hk; try lia.
  destruct k as [|k]; [by exists msg|]. apply IH. lia.
Qed.

(** X5. [retry] over the ping, for one attempt or more: the result is nil
    exactly when one of the first [attempts] pings goes through, that is when
    fewer than [attempts] pings fail in a row; otherwise it is the error of
    the last ping made, the one numbered [attempts]. *)
Theorem retry_gives_up_after_attempts (attempts : Z) (delay : Duration) (b : Boot) :
  1 ≤ attempts →
  ((retry Ping attempts delay b).1 = None ↔
   Z.of_nat (leading_failures (ping_faults b)) < attempts) ∧
  ((retry Ping attempts delay b).1 ≠ None →
   ∃ msg, ping_faults b !! Z.to_nat (attempts - 1) = Some (Some msg) ∧
          (retry Ping attempts delay b).1 = Some (backend_error msg)).
Proof.
  intros Hn. rewrite retry_Ping by done. cbn [fst].
  destruct (Z.ltb_spec (Z.of_nat (leading_failures (ping_faults b))) attempts) as [Hlt|Hge].
  - split; [done|]. by intros [].
  - destruct (leading_failure_at (ping_faults b) (Z.to_nat (attempts - 1)) ltac:(lia))
      as (msg & Hmsg & ->).
    split; [split; [discriminate|lia]|]. intros _. by exists msg.
Qed.

Lemma retry_cost_of_ping (attempts : Z) (delay : Duration) (b : Boot) :
  1 ≤ attempts →
  ping_faults (retry Ping attempts delay b).2 =
    drop (Z.to_nat (Z.min (Z.of_nat (leading_failures (ping_faults b)) + 1) attempts))
         (ping_faults b) ∧
  slept (retry Ping attempts delay b).2 =
    slept b + Z.min (Z.of_nat (leading_failures (ping_faults b))) (attempts - 1) * delay.
Proof. intros Hn. by rewrite retry_Ping. Qed.

(** X6. What [retry] over the ping costs, for one attempt or more: it stops
    at the first ping that goes through and never makes more than [attempts]
    pings; it sleeps [delay] after each failed ping except the last one
    allowed, so at most [attempts - 1] times. *)
Theorem retry_cost (attempts : Z) (delay : Duration) (b : Boot) :
  1 ≤ attempts →
  let failed := Z.of_nat (leading_failures (ping_faults b)) in
  ping_faults (retry Ping attempts delay b).2 =
    drop (Z.to_nat (Z.min (failed + 1) attempts)) (ping_faults b) ∧
  slept (retry Ping attempts delay b).2 = slept b + Z.min failed (attempts - 1) * delay.
Proof. intros Hn. by apply retry_cost_of_ping. Qed.

Lemma LoadConfig_run (b : Boot) :
  config.LoadConfig b =
    match viper_ReadInConfig b, viper_Unmarshal b with
    | Some err, _ => Fatalf ("Failed to load configuration: " +:+ Error err)
    | None, Err err => Fatalf ("Failed to unmarshal configuration: " +:+ Error err)
    | None, Ok cfg => Returned (Some cfg, None)
    end.
Proof.
  unfold config.LoadConfig. destruct (viper_ReadInConfig b); [done|].
  by destruct (viper_Unmarshal b).
Qed.

Lemma NewCache_run (b : Boot) :
  NewCache b =
    match viper_ReadInConfig b, viper_Unmarshal b with
    | Some err, _ => (Fatalf ("Failed to load configuration: " +:+ Error err), b)
    | None, Err err => (Fatalf ("Failed to unmarshal configuration: " +:+ Error err), b)
    | None, Ok cfg =>
        (if Z.of_nat (leading_failures (ping_faults b)) <? 3
         then Returned (mkOptions (redis_Host (Redis cfg) +:+ ":" +:+ redis_Port (Redis cfg))
                          (redis_Password (Redis cfg)) (redis_DB (Redis cfg)))
         else Fatalf "Could not connect to Redis after multiple attempts: <nil>",
         (retry Ping 3 (2 * Second) b).2)
    end.
Proof.
  unfold NewCache. rewrite LoadConfig_run.
  destruct (viper_ReadInConfig b) as [err|]; [done|].
  destruct (viper_Unmarshal b) as [cfg|err]; [|done]. cbn [not_nil].
  rewrite retry_Ping by done. cbn [fst snd].
  destruct (Z.ltb_spec (Z.of_nat (leading_failures (ping_faults b))) 3) as [Hlt|Hge];
    [done|].
  by destruct (leading_failure_at (ping_faults b) (Z.to_nat (3 - 1)) ltac:(lia))
    as (msg & _ & ->).
Qed.

(** X7. [NewCache] comes back with a client exactly when the configuration
    file is read and decoded and one of the first three pings goes through.
    The client then addresses host:port of the Redis section with its
    password and database number, and the start-up has slept two seconds for
    every ping that failed.  Whatever happens, [NewCache] sleeps four seconds
    at most. *)
Theorem NewCache_needs_one_ping_in_three (b : Boot) :
  ((∃ opts, (NewCache b).1 = Returned opts) ↔
   viper_ReadInConfig b = None ∧ is_Ok (viper_Unmarshal b) = true ∧
   (leading_failures (ping_faults b) < 3)%nat) ∧
  (∀ opts cfg, (NewCache b).1 = Returned opts → viper_Unmarshal b = Ok cfg →
     opts = mkOptions (redis_Host (Redis cfg) +:+ ":" +:+ redis_Port (Redis cfg))
              (redis_Password (Redis cfg)) (redis_DB (Redis cfg)) ∧
     slept (NewCache b).2 =
       slept b + Z.of_nat (leading_failures (ping_faults b)) * (2 * Second)) ∧
  slept b ≤ slept (NewCache b).2 ≤ slept b + 4 * Second.
Proof.
  rewrite NewCache_run.
  destruct (viper_ReadInConfig b) as [err|].
  { cbn. split; [|split; [done|unfold Second; lia]].
    split; [by intros [opts [=]]|by intros [[=] _]]. }
  destruct (viper_Unmarshal b) as [cfg|err].
  2: { cbn. split; [|split; [done|unfold Second; lia]].
       split; [by intros [opts [=]]|by intros (_ & [=] & _)]. }
  cbn [fst snd is_Ok]. rewrite (proj2 (retry_cost_of_ping 3 (2 * Second) b ltac:(done))).
  destruct (Z.ltb_spec (Z.of_nat (leading_failures (ping_faults b))) 3) as [Hlt|Hge].
  - split; [split; [intros _; repeat split; lia|by eexists]|]. split.
    + intros opts cfg' [= <-] [= <-]. split; [done|]. f_equal. f_equal. lia.
    + unfold Second. lia.
  - split; [split; [by intros [opts [=]]|intros (_ & _ & Hlt); lia]|].
    split; [done|]. unfold Second. lia.
Qed.

(** X8. When the configuration loads and the first three pings all fail,
    [NewCache] ends the process after three pings and four seconds of sleep,
    and the message it prints does not tell why: it formats the error of
    [LoadConfig], which is nil at that point, so the text ends in <nil>
    whatever the pings reported. *)
Theorem NewCache_hides_the_ping_error (b : Boot) (cfg : Config) :
  viper_ReadInConfig b = None →
  viper_Unmarshal b = Ok cfg →
  (3 ≤ leading_failures (ping_faults b))%nat →
  (NewCache b).1 = Fatalf "Could not connect to Redis after multiple attempts: <nil>" ∧
  ping_faults (NewCache b).2 = drop 3 (ping_faults b) ∧
  slept (NewCache b).2 = slept b + 4 * Second.
Proof.
  intros Hread Hdecode Hfail. rewrite NewCache_run, Hread, Hdecode. cbn [fst snd].
  destruct (retry_cost_of_ping 3 (2 * Second) b ltac:(done)) as [-> ->].
  replace (Z.of_nat (leading_failures (ping_faults b)) <? 3) with false
    by (symmetry; apply Z.ltb_ge; lia).
  repeat split.
  - f_equal. lia.
  - unfold Second. lia.
Qed.

(** X9. [LoadConfig] never hands an error to its caller: it either ends the
    process or returns a configuration with a nil error.  So [NewCache]
    never prints its own message about the configuration and never
    dereferences a nil configuration: when it ends the process, the message
    is one of the two of [LoadConfig] or the one about Redis. *)
Theorem LoadConfig_never_returns_an_error (b : Boot) :
  (∀ cfg err, config.LoadConfig b = Returned (cfg, err) → err = None ∧ is_Some cfg) ∧
  (∀ msg, (NewCache b).1 = Fatalf msg →
     (∃ err, msg = "Failed to load configuration: " +:+ Error err) ∨
     (∃ err, msg = "Failed to unmarshal configuration: " +:+ Error err) ∨
     msg = "Could not connect to Redis after multiple attempts: <nil>").
Proof.
  rewrite LoadConfig_run, NewCache_run.
  destruct (viper_ReadInConfig b) as [err|].
  { split; [done|]. intros msg [= <-]. left. by exists err. }
  destruct (viper_Unmarshal b) as [cfg|err].
  - split; [by intros cfg' err' [= <- <-]|]. cbn [fst].
    destruct (_ <? 3); [done|]. intros msg [= <-]. by right; right.
  - split; [done|]. intros msg [= <-]. right; left. by exists err.
Qed.

(** ** Creation, beyond the claims *)

(** X10. A create can fail after its row is in the table: when the INSERT
    goes through and the SELECT of created_at that follows it fails,
    [AddAd] returns an error and the Ad as it was passed, the handler
    answers 500, and yet the row is stored under the id the table assigned,
    which is used up. *)
Theorem create_may_fail_after_insert `{JSON} (ad : Ad) (w : World) (msg : string) :
  next_fault (mysql_faults w) = None →
  next_fault (tail (mysql_faults w)) = Some msg →
  let id := auto_increment (mysql w) in
  let w' := (AdService.AddAd ad w).2 in
  (AdService.AddAd ad w).1 =
    (ad, Some (fmt_Errorf ("could not retrieve created_at: " +:+ msg))) ∧
  rows (mysql w') !! id =
    Some (mkAd id (Title ad) (Description ad) (Price ad) (now (mysql w)) (IsActive ad)) ∧
  auto_increment (mysql w') = id + 1 ∧
  (∀ c, good_ad c ad →
     (Handler.AddAd c w).1 =
       mkResponse StatusInternalServerError (H "error" "Failed to add ad")).
Proof.
  intros Hinsert Hselect. cbv zeta.
  assert (AdService.AddAd ad w =
            ((ad, Some (fmt_Errorf ("could not retrieve created_at: " +:+ msg))),
             (AdService.AddAd ad w).2)) as Hrun.
  { rewrite AdService_AddAd_run, Repository_AddAd_run. cbv zeta.
    by rewrite Hinsert, Hselect. }
  split; [by rewrite Hrun|]. split; [|split].
  - rewrite AdService_AddAd_run, Repository_AddAd_run. cbv zeta.
    rewrite Hinsert, Hselect. apply lookup_insert_eq.
  - rewrite AdService_AddAd_run, Repository_AddAd_run. cbv zeta.
    by rewrite Hinsert, Hselect.
  - intros c (Hbind & Ht%String.eqb_neq & Hd%String.eqb_neq & Hprice).
    unfold Handler.AddAd. rewrite Hbind, Ht, Hd, Hprice. cbn [orb]. unfold_bind.
    by rewrite Hrun.
Qed.

(** X11. The id and the created_at of the Ad passed to [AddAd] play no part:
    two Ads that agree on title, description, price and is_active lead to the
    same world and the same error, and to the same created Ad when the create
    succeeds.  When it fails, the Ad comes back as it was passed. *)
Theorem create_ignores_id_and_created_at (ad : Ad) (id : Z) (created_at : Time)
    (w : World) :
  let ad' := mkAd id (Title ad) (Description ad) (Price ad) created_at (IsActive ad) in
  (AdService.AddAd ad' w).2 = (AdService.AddAd ad w).2 ∧
  (AdService.AddAd ad' w).1.2 = (AdService.AddAd ad w).1.2 ∧
  ((AdService.AddAd ad w).1.2 = None →
   (AdService.AddAd ad' w).1.1 = (AdService.AddAd ad w).1.1) ∧
  ((AdService.AddAd ad w).1.2 ≠ None → (AdService.AddAd ad w).1.1 = ad).
Proof.
  cbv zeta. rewrite !AdService_AddAd_run, !Repository_AddAd_run. cbv zeta.
  cbn [Title Description Price IsActive].
  destruct (next_fault (mysql_faults w)); [done|].
  by destruct (next_fault (tail (mysql_faults w))).
Qed.

(** X12. What a successful POST answers is what the table holds: for a body
    that passes validation, with MySQL taking both statements, the handler
    answers 201 with the Ad whose id is the one the table assigned and whose
    created_at is the server clock, and that Ad is the row stored under that
    id; an id or created_at sent in the body is not in it. *)
Theorem created_response_is_the_stored_row `{JSON} (c : Request) (ad : Ad) (w : World) :
  good_ad c ad →
  next_fault (mysql_faults w) = None →
  next_fault (tail (mysql_faults w)) = None →
  let created :=
    mkAd (auto_increment (mysql w)) (Title ad) (Description ad) (Price ad)
         (now (mysql w)) (IsActive ad) in
  (Handler.AddAd c w).1 = mkResponse StatusCreated (JAd created) ∧
  rows (mysql (Handler.AddAd c w).2) !! ID created = Some created.
Proof.
  intros (Hbind & Ht%String.eqb_neq & Hd%String.eqb_neq & Hprice) Hinsert Hselect.
  cbv zeta. unfold Handler.AddAd. rewrite Hbind, Ht, Hd, Hprice. cbn [orb]. unfold_bind.
  rewrite AdService_AddAd_run, Repository_AddAd_run. cbv zeta.
  rewrite Hinsert, Hselect. cbn [not_nil]. split; [done|]. apply lookup_insert_eq.
Qed.

(** ** Listing, beyond the claims *)

Lemma GetAllAds_world (page limit : Z) (sortBy order : string) (w : World) :
  (AdService.GetAllAds page limit sortBy order w).2 =
    after_mysql_call
      (EvSqlQuery
         ("SELECT id, title, description, price, created_at, is_active FROM ads ORDER BY "
            +:+ sortBy +:+ " " +:+ order +:+ " LIMIT ? OFFSET ?")
         [VInt limit; VInt (wrap_int ((page - 1) * limit))])
      (mysql w) w.
Proof.
  unfold AdService.GetAllAds, Repository.GetAllAds. unfold_bind.
  rewrite QueryContext_run.
  destruct (next_fault (mysql_faults w)); [done|].
  destruct (mysql_query _ _ _) as [rs|err]; [|done].
  by destruct (Repository.scan_rows rs []) as [ads [err|]].
Qed.

(** X13. A listing is one SELECT and nothing else: whatever its arguments
    and its outcome, [GetAllAds] adds exactly that statement to the log,
    with the limit and the offset [(page - 1) * limit] (wrapped to an int) as
    arguments, makes no Redis call, and leaves the table and the keyspace as
    they were. *)
Theorem listing_is_one_select (page limit : Z) (sortBy order : string) (w : World) :
  let w' := (AdService.GetAllAds page limit sortBy order w).2 in
  trace w' =
    trace w ++
    [EvSqlQuery
       ("SELECT id, title, description, price, created_at, is_active FROM ads ORDER BY "
          +:+ sortBy +:+ " " +:+ order +:+ " LIMIT ? OFFSET ?")
       [VInt limit; VInt (wrap_int ((page - 1) * limit))]] ∧
  mysql w' = mysql w ∧ redis w' = redis w ∧ redis_faults w' = redis_faults w.
Proof. cbv zeta. by rewrite GetAllAds_world. Qed.

Lemma elem_of_insert_by (leb : Ad → Ad → bool) (x y : Ad) (l : list Ad) :
  y ∈ insert_by leb x l ↔ y = x ∨ y ∈ l.
Proof.
  induction l as [|z l IH]; cbn.
  - by rewrite elem_of_cons.
  - destruct (leb x z); rewrite !elem_of_cons; [done|]. rewrite IH. tauto.
Qed.

Lemma elem_of_sort_by (leb : Ad → Ad → bool) (y : Ad) (l : list Ad) :
  y ∈ sort_by leb l ↔ y ∈ l.
Proof.
  unfold sort_by. induction l as [|x l IH]; [done|].
  cbn [foldr]. by rewrite elem_of_insert_by, IH, elem_of_cons.
Qed.

Lemma elem_of_table_scan (a : Ad) (d : DB) :
  a ∈ table_scan d ↔ ∃ id, rows d !! id = Some a.
Proof.
  unfold table_scan. rewrite elem_of_sort_by, list_elem_of_fmap. split.
  - intros ([id a'] & -> & Hin%elem_of_map_to_list). by exists id.
  - intros [id Hrow]. exists (id, a). split; [done|]. by apply elem_of_map_to_list.
Qed.

(** The ordering a valid sort field and order stand for. *)
Lemma page_order (sortBy order : string) :
  validSortFields sortBy = true →
  order = "asc" ∨ order = "desc" →
  ∃ c dir, ∀ limit offset d,
    mysql_query
      ("SELECT id, title, description, price, created_at, is_active FROM ads ORDER BY "
         +:+ sortBy +:+ " " +:+ order +:+ " LIMIT ? OFFSET ?")
      [VInt limit; VInt offset] d =
    if (limit <? 0) || (offset <? 0) then Err syntax_error
    else Ok (row_values <$>
               take (Z.to_nat limit)
                 (drop (Z.to_nat offset) (sort_by (order_leb c dir) (table_scan d)))).
Proof.
  intros Hs%valid_sort_field Ho.
  repeat (apply elem_of_cons in Hs as [->|Hs]); [..|by apply elem_of_nil in Hs];
    destruct Ho as [-> | ->]; eexists _, _; intros limit offset d; reflexivity.
Qed.

Lemma GetAllAds_valid_run (sortBy order : string) :
  validSortFields sortBy = true →
  order = "asc" ∨ order = "desc" →
  ∃ c dir, ∀ page limit w,
    (AdService.GetAllAds page limit sortBy order w).1 =
      match next_fault (mysql_faults w) with
      | Some msg => (None, Some (backend_error msg))
      | None =>
          if (limit <? 0) || (wrap_int ((page - 1) * limit) <? 0)
          then (None, Some syntax_error)
          else (Some (take (Z.to_nat limit)
                        (drop (Z.to_nat (wrap_int ((page - 1) * limit)))
                           (sort_by (order_leb c dir) (table_scan (mysql w))))),
                None)
      end.
Proof.
  intros Hs Ho. destruct (page_order sortBy order Hs Ho) as (c & dir & Hquery).
  exists c, dir. intros page limit w.
  rewrite AdService_GetAllAds_run, Repository_GetAllAds_run, QueryContext_run. cbn [fst].
  destruct (next_fault (mysql_faults w)); [done|]. rewrite Hquery.
  destruct (_ || _); [done|]. by rewrite scan_rows_values.
Qed.

(** X14. What a listing returns: for a sort field and an order the handler
    lets through, a [GetAllAds] that succeeds returns at most [limit] Ads,
    and each of them is a row of the table. *)
Theorem listing_is_bounded (page limit : Z) (sortBy order : string) (w : World)
    (ads : list Ad) :
  validSortFields sortBy = true →
  order = "asc" ∨ order = "desc" →
  (AdService.GetAllAds page limit sortBy order w).1 = (Some ads, None) →
  Z.of_nat (length ads) ≤ limit ∧
  ∀ ad, ad ∈ ads → ∃ id, rows (mysql w) !! id = Some ad.
Proof.
  intros Hs Ho. destruct (GetAllAds_valid_run sortBy order Hs Ho) as (c & dir & ->).
  destruct (next_fault (mysql_faults w)); [discriminate|].
  destruct (Z.ltb_spec limit 0); [discriminate|]. cbn [orb].
  destruct (_ <? 0); [discriminate|]. intros [= <-]. split.
  - rewrite length_take. lia.
  - intros ad Hin%subseteq_take%subseteq_drop%elem_of_sort_by.
    by apply elem_of_table_scan.
Qed.


(** ** Calls in sequence *)

Lemma UpdateAd_success (id : Z) (ad : Ad) (w : World) :
  (AdService.UpdateAd id ad w).1 = None →
  ∃ old,
    rows (mysql w) !! id = Some old ∧
    next_fault (mysql_faults w) = None ∧
    same_columns old (updated ad old) = false ∧
    mysql (AdService.UpdateAd id ad w).2 =
      mkDB (<[id := updated ad old]> (rows (mysql w))) (auto_increment (mysql w))
           (now (mysql w)) ∧
    mysql_faults (AdService.UpdateAd id ad w).2 = tail (mysql_faults w) ∧
    redis (AdService.UpdateAd id ad w).2 =
      match next_fault (redis_faults w) with
      | Some _ => redis w
      | None => delete (cache_key id) (redis w)
      end ∧
    redis_faults (AdService.UpdateAd id ad w).2 = tail (redis_faults w).
Proof.
  rewrite UpdateAd_as_mutation, update_on_state. cbv zeta.
  destruct (next_fault (mysql_faults w)); [discriminate|].
  unfold mysql_update. cbn [fst snd].
  destruct (rows (mysql w) !! id) as [old|]; [|discriminate].
  destruct (same_columns old (updated ad old)) eqn:Hsame; [discriminate|].
  cbn [fst snd mutation_error RowsAffected Z.eqb]. intros _. exists old.
  rewrite Cache_Delete_run. by destruct (next_fault (redis_faults _)) eqn:Hdel.
Qed.

Lemma DeleteAd_success (id : Z) (w : World) :
  (AdService.DeleteAd id w).1 = None →
  is_Some (rows (mysql w) !! id) ∧
  next_fault (mysql_faults w) = None ∧
  mysql (AdService.DeleteAd id w).2 =
    mkDB (delete id (rows (mysql w))) (auto_increment (mysql w)) (now (mysql w)) ∧
  mysql_faults (AdService.DeleteAd id w).2 = tail (mysql_faults w) ∧
  redis (AdService.DeleteAd id w).2 =
    match next_fault (redis_faults w) with
    | Some _ => redis w
    | None => delete (cache_key id) (redis w)
    end ∧
  redis_faults (AdService.DeleteAd id w).2 = tail (redis_faults w).
Proof.
  rewrite DeleteAd_as_mutation, delete_on_state. cbv zeta.
  destruct (next_fault (mysql_faults w)); [discriminate|].
  destruct (rows (mysql w) !! id) as [old|]; [|discriminate].
  cbn [fst snd mutation_error RowsAffected Z.eqb]. intros _.
  rewrite Cache_Delete_run. by destruct (next_fault (redis_faults _)) eqn:Hdel.
Qed.

Section sequences.
Context `{JSON}.

Lemma no_hit_after_invalidation (w w' : World) (id : Z) :
  redis w' = delete (cache_key id) (redis w) → usable_hit w' id = None.
Proof.
  intros Hredis. unfold usable_hit. rewrite Hredis, lookup_delete_eq.
  by destruct (next_fault (redis_faults w')).
Qed.

Lemma hit_survives (w w' : World) (id : Z) (doc : string) (ttl : Duration) (ad : Ad) :
  redis w' = redis w →
  next_fault (redis_faults w') = None →
  redis w !! cache_key id = Some (doc, ttl) →
  json_Unmarshal doc = Ok ad →
  (AdService.GetAdByID id w').1 = Ok ad.
Proof.
  intros Hredis Hup Hkey Hparse. rewrite GetAdByID_run.
  unfold usable_hit. by rewrite Hup, Hredis, Hkey, Hparse.
Qed.

(** X16. A read after an update sees the update: when [UpdateAd id ad]
    succeeds and its deletion of the cache entry goes through, the next
    [GetAdByID id] returns, MySQL answering, the row as the update left it,
    whether or not the Redis lookup of that read fails. *)
Theorem read_after_update (id : Z) (ad : Ad) (w : World) :
  (AdService.UpdateAd id ad w).1 = None →
  next_fault (redis_faults w) = None →
  next_fault (tail (mysql_faults w)) = None →
  ∃ old,
    rows (mysql w) !! id = Some old ∧
    (AdService.GetAdByID id (AdService.UpdateAd id ad w).2).1 =
      Ok (mkAd (ID old) (Title ad) (Description ad) (Price ad) (CreatedAt old)
               (if IsActive ad then true else IsActive old)).
Proof.
  intros (old & Hold & _ & _ & Hmysql & Hfaults & Hredis & _)%UpdateAd_success Hdel Hread.
  exists old. split; [done|]. rewrite Hdel in Hredis.
  rewrite GetAdByID_run, (no_hit_after_invalidation w _ id Hredis).
  unfold store_read. rewrite Hfaults, Hread, Hmysql. cbn [rows].
  rewrite lookup_insert_eq. by destruct (json_Marshal _).
Qed.

(** X17. A failed invalidation leaves the old entry to be served: when the
    cache holds an entry for the id that unmarshals, and the Redis deletion
    of a successful [UpdateAd] or [DeleteAd] fails, the mutation still
    reports success and the next [GetAdByID], its lookup going through,
    returns the Ad of that entry without asking MySQL: the values from before
    the update, or the Ad that was deleted. *)
Theorem failed_invalidation_serves_the_old_entry (id : Z) (ad stale : Ad) (w : World)
    (doc msg : string) (ttl : Duration) :
  redis w !! cache_key id = Some (doc, ttl) →
  json_Unmarshal doc = Ok stale →
  next_fault (redis_faults w) = Some msg →
  next_fault (tail (redis_faults w)) = None →
  ((AdService.UpdateAd id ad w).1 = None →
   (AdService.GetAdByID id (AdService.UpdateAd id ad w).2).1 = Ok stale ∧
   mysql_faults (AdService.GetAdByID id (AdService.UpdateAd id ad w).2).2
   = tail (mysql_faults w)) ∧
  ((AdService.DeleteAd id w).1 = None →
   (AdService.GetAdByID id (AdService.DeleteAd id w).2).1 = Ok stale ∧
   rows (mysql (AdService.DeleteAd id w).2) !! id = None).
Proof.
  intros Hkey Hparse Hdel Hlookup. split.
  - intros (old & _ & _ & _ & _ & Hfaults & Hredis & Hrf)%UpdateAd_success.
    rewrite Hdel in Hredis. split.
    + apply (hit_survives w _ id doc ttl); try done. by rewrite Hrf.
    + rewrite GetAdByID_run. unfold usable_hit.
      by rewrite Hrf, Hlookup, Hredis, Hkey, Hparse.
  - intros (_ & _ & Hmysql & _ & Hredis & Hrf)%DeleteAd_success.
    rewrite Hdel in Hredis. split.
    + apply (hit_survives w _ id doc ttl); try done. by rewrite Hrf.
    + rewrite Hmysql. apply lookup_delete_eq.
Qed.

(** X18. A read after a delete finds nothing: when [DeleteAd id] succeeds
    and its deletion of the cache entry goes through, the row is gone and the
    next [GetAdByID id] fails, MySQL answering, with [sql.ErrNoRows]. *)
Theorem read_after_delete (id : Z) (w : World) :
  (AdService.DeleteAd id w).1 = None →
  next_fault (redis_faults w) = None →
  next_fault (tail (mysql_faults w)) = None →
  rows (mysql (AdService.DeleteAd id w).2) !! id = None ∧
  (AdService.GetAdByID id (AdService.DeleteAd id w).2).1 = Err sql_ErrNoRows.
Proof.
  intros (_ & _ & Hmysql & Hfaults & Hredis & _)%DeleteAd_success Hdel Hread.
  rewrite Hdel in Hredis.
  assert (rows (mysql (AdService.DeleteAd id w).2) !! id = None) as Hgone
    by (rewrite Hmysql; apply lookup_delete_eq).
  split; [done|].
  rewrite GetAdByID_run, (no_hit_after_invalidation w _ id Hredis).
  unfold store_read. by rewrite Hfaults, Hread, Hgone.
Qed.

End sequences.

(** X19. Nothing can be done to a deleted ad: after a [DeleteAd id] that
    succeeded, a second [DeleteAd id] and any [UpdateAd id] fail, MySQL
    answering, with [ErrAdNotFound], whatever Redis does. *)
Theorem mutation_after_delete (id : Z) (ad : Ad) (w : World) :
  (AdService.DeleteAd id w).1 = None →
  next_fault (tail (mysql_faults w)) = None →
  (AdService.DeleteAd id (AdService.DeleteAd id w).2).1 = Some ErrAdNotFound ∧
  (AdService.UpdateAd id ad (AdService.DeleteAd id w).2).1 = Some ErrAdNotFound.
Proof.
  intros (_ & _ & Hmysql & Hfaults & _)%DeleteAd_success Hup.
  assert (rows (mysql (AdService.DeleteAd id w).2) !! id = None) as Hgone
    by (rewrite Hmysql; apply lookup_delete_eq).
  split.
  - rewrite DeleteAd_as_mutation, delete_on_state. cbv zeta.
    by rewrite Hfaults, Hup, Hgone.
  - rewrite UpdateAd_as_mutation, update_on_state. cbv zeta.
    rewrite Hfaults, Hup. unfold mysql_update. by rewrite Hgone.
Qed.

Lemma same_columns_updated_twice (ad old : Ad) :
  PrimFloat.eqb (Price ad) (Price ad) = true →
  same_columns (updated ad old) (updated ad (updated ad old)) = true.
Proof.
  intros Hprice. unfold same_columns, updated. cbn.
  rewrite !String.eqb_refl, Hprice. by destruct (IsActive ad), (IsActive old).
Qed.

(** X20. An update that changes nothing is reported as a missing ad.  The
    server counts changed rows, so an [UpdateAd] whose values the row already
    holds fails with [ErrAdNotFound] although the row exists, and leaves
    table and cache untouched.  In particular an [UpdateAd] that succeeded
    fails this way when it is sent again (its price being a number). *)
Theorem update_without_effect_is_not_found (id : Z) (ad : Ad) (w : World) :
  (∀ old, rows (mysql w) !! id = Some old →
     same_columns old (updated ad old) = true →
     next_fault (mysql_faults w) = None →
     (AdService.UpdateAd id ad w).1 = Some ErrAdNotFound ∧
     mysql (AdService.UpdateAd id ad w).2 = mysql w ∧
     redis (AdService.UpdateAd id ad w).2 = redis w) ∧
  ((AdService.UpdateAd id ad w).1 = None →
   PrimFloat.eqb (Price ad) (Price ad) = true →
   next_fault (tail (mysql_faults w)) = None →
   (AdService.UpdateAd id ad (AdService.UpdateAd id ad w).2).1 = Some ErrAdNotFound).
Proof.
  split.
  - intros old Hold Hsame Hup. rewrite UpdateAd_as_mutation, update_on_state. cbv zeta.
    rewrite Hup. unfold mysql_update. by rewrite Hold, Hsame.
  - intros (old & _ & _ & _ & Hmysql & Hfaults & _)%UpdateAd_success Hprice Hup.
    rewrite UpdateAd_as_mutation, update_on_state. cbv zeta.
    rewrite Hfaults, Hup, Hmysql. unfold mysql_update. cbn [rows].
    by rewrite lookup_insert_eq, same_columns_updated_twice.
Qed.

Section more_invariants.
Context `{JSON}.

(** X21. A read fills the cache for the next one: when a [GetAdByID] finds
    nothing usable in the cache, reads the row from MySQL and Redis takes the
    write of its marshalled text, then, provided that text unmarshals to the
    same Ad, the next [GetAdByID] of the id returns that Ad from the cache
    with the Redis lookup as its only backend call, whether MySQL is still
    up or not. *)
Theorem second_read_is_served_from_cache (id : Z) (ad : Ad) (doc : string) (w : World) :
  usable_hit w id = None →
  rows (mysql w) !! id = Some ad →
  next_fault (mysql_faults w) = None →
  json_Marshal ad = Ok doc →
  json_Unmarshal doc = Ok ad →
  next_fault (tail (redis_faults w)) = None →
  next_fault (tail (tail (redis_faults w))) = None →
  let w1 := (AdService.GetAdByID id w).2 in
  (AdService.GetAdByID id w).1 = Ok ad ∧
  (AdService.GetAdByID id w1).1 = Ok ad ∧
  trace (AdService.GetAdByID id w1).2 = trace w1 ++ [EvRedisGet (cache_key id)] ∧
  mysql_faults (AdService.GetAdByID id w1).2 = mysql_faults w1.
Proof.
  intros Hmiss Hrow Hup Hdoc Hparse Hset Hlookup. cbv zeta.
  assert (AdService.GetAdByID id w =
            (Ok ad, (Cache.Set_ (cache_key id) doc (5 * Minute)
                       (after_store_read w id)).2)) as Hfirst.
  { rewrite GetAdByID_run, Hmiss. unfold store_read. by rewrite Hup, Hrow, Hdoc. }
  rewrite Hfirst. cbn [fst snd]. split; [done|].
  set (w1 := (Cache.Set_ _ _ _ _).2).
  assert (usable_hit w1 id = Some ad) as Hhit.
  { unfold usable_hit, w1. rewrite Cache_Set_run. cbn.
    rewrite Hset. cbn. by rewrite Hlookup, lookup_insert_eq, Hparse. }
  by rewrite GetAdByID_run, Hhit.
Qed.

Lemma AddAd_mysql (ad : Ad) (w : World) :
  (mysql (AdService.AddAd ad w).2 = mysql w ∨
   mysql (AdService.AddAd ad w).2 = inserted ad (mysql w)) ∧
  redis (AdService.AddAd ad w).2 = redis w.
Proof.
  rewrite AdService_AddAd_run, Repository_AddAd_run. cbv zeta.
  destruct (next_fault (mysql_faults w)); [by split; [left|]|].
  by destruct (next_fault (tail (mysql_faults w))); (split; [right|]).
Qed.

Lemma GetAdByID_backends (id : Z) (w : World) :
  mysql (AdService.GetAdByID id w).2 = mysql w ∧
  (redis (AdService.GetAdByID id w).2 = redis w ∨
   ∃ ad doc, rows (mysql w) !! id = Some ad ∧ json_Marshal ad = Ok doc ∧
             redis (AdService.GetAdByID id w).2 =
               <[cache_key id := (doc, 5 * Minute)]> (redis w)).
Proof.
  rewrite GetAdByID_run. destruct (usable_hit w id); [by split; [|left]|].
  unfold store_read. destruct (next_fault (mysql_faults w)); [by split; [|left]|].
  destruct (rows (mysql w) !! id) as [ad|] eqn:Hrow; [|by split; [|left]].
  destruct (json_Marshal ad) as [doc|err] eqn:Hdoc; [|by split; [|left]].
  cbn [snd]. rewrite Cache_Set_mysql, Cache_Set_redis. split; [done|].
  destruct (next_fault _); [by left|]. right. by exists ad, doc.
Qed.

Lemma UpdateAd_backends (id : Z) (ad : Ad) (w : World) :
  (mysql (AdService.UpdateAd id ad w).2 = mysql w ∨
   ∃ old, rows (mysql w) !! id = Some old ∧
          mysql (AdService.UpdateAd id ad w).2 =
            mkDB (<[id := updated ad old]> (rows (mysql w))) (auto_increment (mysql w))
                 (now (mysql w))) ∧
  (redis (AdService.UpdateAd id ad w).2 = redis w ∨
   redis (AdService.UpdateAd id ad w).2 = delete (cache_key id) (redis w)).
Proof.
  destruct (AdService.UpdateAd id ad w).1 eqn:Hres.
  - destruct (mutation_run _ _ _ id _ (UpdateAd_as_mutation id ad) w)
      as [(query & args & Horder) _].
    rewrite Hres in Horder. destruct Horder as (_ & -> & _ & ->). by split; left.
  - destruct (UpdateAd_success id ad w Hres) as (old & Hold & _ & _ & -> & _ & -> & _).
    split; [right; by exists old|]. destruct (next_fault _); [by left|by right].
Qed.

Lemma DeleteAd_backends (id : Z) (w : World) :
  (mysql (AdService.DeleteAd id w).2 = mysql w ∨
   mysql (AdService.DeleteAd id w).2 =
     mkDB (delete id (rows (mysql w))) (auto_increment (mysql w)) (now (mysql w))) ∧
  (redis (AdService.DeleteAd id w).2 = redis w ∨
   redis (AdService.DeleteAd id w).2 = delete (cache_key id) (redis w)).
Proof.
  destruct (AdService.DeleteAd id w).1 eqn:Hres.
  - destruct (mutation_run _ _ _ id _ (DeleteAd_as_mutation id) w)
      as [(query & args & Horder) _].
    rewrite Hres in Horder. destruct Horder as (_ & -> & _ & ->). by split; left.
  - destruct (DeleteAd_success id w Hres) as (_ & _ & -> & _ & -> & _).
    split; [by right|]. destruct (next_fault _); [by left|by right].
Qed.

(** The table grows by new ids only. *)
Lemma serve_auto_increment (c : Call) (w : World) :
  auto_increment (mysql w) ≤ auto_increment (mysql (serve c w)).
Proof.
  destruct c as [ad|page limit sortBy order|id|id ad|id]; cbn [serve].
  - destruct (AddAd_mysql ad w) as [[-> | ->] _]; cbn; lia.
  - by rewrite (proj1 (GetAllAds_backends page limit sortBy order w)).
  - by rewrite (proj1 (GetAdByID_backends id w)).
  - destruct (UpdateAd_backends id ad w) as [[-> |(old & _ & ->)] _]; done.
  - destruct (DeleteAd_backends id w) as [[-> | ->] _]; done.
Qed.

Lemma serve_keeps_rows_keyed (c : Call) (w : World) :
  1 ≤ auto_increment (mysql w) →
  rows_carry_their_id w → rows_carry_their_id (serve c w).
Proof.
  intros Hfirst Hkeyed.
  destruct c as [ad|page limit sortBy order|id|id ad|id]; cbn [serve]; intros i a.
  - destruct (AddAd_mysql ad w) as [[-> | ->] _]; [apply Hkeyed|]. cbn [rows inserted].
    destruct (decide (auto_increment (mysql w) = i)) as [<-|Hne].
    + rewrite lookup_insert_eq. by intros [= <-].
    + rewrite lookup_insert_ne by done. apply Hkeyed.
  - rewrite (proj1 (GetAllAds_backends page limit sortBy order w)). apply Hkeyed.
  - rewrite (proj1 (GetAdByID_backends id w)). apply Hkeyed.
  - destruct (UpdateAd_backends id ad w) as [[-> |(old & Hold & ->)] _];
      [apply Hkeyed|]. cbn [rows].
    destruct (decide (id = i)) as [<-|Hne].
    + rewrite lookup_insert_eq. intros [= <-]. apply (Hkeyed id old Hold).
    + rewrite lookup_insert_ne by done. apply Hkeyed.
  - destruct (DeleteAd_backends id w) as [[-> | ->] _]; [apply Hkeyed|]. cbn [rows].
    intros Hrow%lookup_delete_Some. apply Hkeyed, Hrow.
Qed.

Lemma serve_keeps_cache_marshalled (c : Call) (w : World) :
  unused_ids_are_free w → rows_carry_their_id w →
  cache_holds_marshalled_ads w → cache_holds_marshalled_ads (serve c w).
Proof.
  intros Hfree Hkeyed Hcache key doc ttl.
  pose proof (serve_auto_increment c w) as Hgrow.
  assert (redis w !! key = Some (doc, ttl) →
          ttl = 5 * Minute ∧
          ∃ ad, key = cache_key (ID ad) ∧
                1 ≤ ID ad < auto_increment (mysql (serve c w)) ∧
                json_Marshal ad = Ok doc) as Hold.
  { intros (-> & ad & -> & Hid & Hdoc)%Hcache. split; [done|]. exists ad.
    split; [done|]. split; [lia|done]. }
  assert (∀ k, delete k (redis w) !! key = Some (doc, ttl) →
               redis w !! key = Some (doc, ttl)) as Hdel
    by (by intros k [_ ?]%lookup_delete_Some).
  destruct c as [ad|page limit sortBy order|id|id ad|id]; cbn [serve] in *.
  - by rewrite (proj2 (AddAd_mysql ad w)).
  - by rewrite (proj2 (GetAllAds_backends page limit sortBy order w)).
  - destruct (GetAdByID_backends id w) as [Hmysql [-> |(ad & doc' & Hrow & Hdoc & ->)]];
      [done|].
    destruct (decide (cache_key id = key)) as [<-|Hne].
    + rewrite lookup_insert_eq. intros [= <- <-]. split; [done|]. exists ad.
      destruct (Hkeyed id ad Hrow) as [Hid Hpos]. rewrite Hid. split; [done|].
      split; [|done]. split; [done|]. rewrite Hmysql.
      destruct (Z.lt_ge_cases id (auto_increment (mysql w))) as [|Hge]; [done|].
      destruct (Hfree id Hge) as [Hnone _]. congruence.
    + by rewrite lookup_insert_ne.
  - destruct (UpdateAd_backends id ad w) as [_ [-> | ->]]; eauto.
  - destruct (DeleteAd_backends id w) as [_ [-> | ->]]; eauto.
Qed.

Lemma reachable_keyed (w : World) :
  reachable w →
  1 ≤ auto_increment (mysql w) ∧ rows_carry_their_id w ∧ cache_holds_marshalled_ads w.
Proof.
  induction 1 as [clock mf rf Hclock|c w Hreach (IHfirst & IHrows & IHcache)
                 |t w Ht _ (IHfirst & IHrows & IHcache)
                 |key w _ (IHfirst & IHrows & IHcache)
                 |mf rf w _ (IHfirst & IHrows & IHcache)].
  - split; [done|]. split; [intros id a|intros key doc ttl]; cbn; by rewrite lookup_empty.
  - split; [pose proof (serve_auto_increment c w); lia|]. split.
    + by apply serve_keeps_rows_keyed.
    + apply serve_keeps_cache_marshalled; try done. by apply reachable_free.
  - done.
  - split; [done|]. split; [done|]. intros k doc ttl. cbn [expire redis mysql].
    intros [_ Hk]%lookup_delete_Some. by apply IHcache.
  - done.
Qed.

End more_invariants.

Section reachable_worlds.
Context `{JSON}.

(** X22. What the cache can hold.  In every world the service can be in,
    each Redis entry was written by a read: it expires after five minutes,
    its key is ["ad_" ++ Itoa id] for the id of some Ad, an id between 1 and
    the last one the table assigned, and its value is the marshalled text of
    that Ad. *)
Theorem cache_entries_are_marshalled_ads (w : World) (key doc : string) (ttl : Duration) :
  reachable w →
  redis w !! key = Some (doc, ttl) →
  ttl = 5 * Minute ∧ Seconds ttl = 300 ∧
  ∃ ad, key = "ad_" +:+ Itoa (ID ad) ∧ 1 ≤ ID ad < auto_increment (mysql w) ∧
        json_Marshal ad = Ok doc.
Proof.
  intros (_ & _ & Hcache)%reachable_keyed Hkey.
  destruct (Hcache key doc ttl Hkey) as (-> & ad & -> & Hid & Hdoc).
  split; [done|]. split; [done|]. by exists ad.
Qed.

(** X23. A read served by the store returns the ad asked for: in every
    world the service can be in, a row is filed under its own id, so a
    [GetAdByID id] that finds nothing usable in the cache and succeeds
    returns an Ad whose id is [id], an id between 1 and the last one the
    table assigned. *)
Theorem read_returns_the_id_asked_for (w : World) (id : Z) (ad : Ad) :
  reachable w →
  usable_hit w id = None →
  (AdService.GetAdByID id w).1 = Ok ad →
  ID ad = id ∧ 1 ≤ id < auto_increment (mysql w) ∧ rows (mysql w) !! id = Some ad.
Proof.
  intros Hreach Hmiss. rewrite GetAdByID_run, Hmiss. unfold store_read.
  destruct (next_fault (mysql_faults w)); [discriminate|].
  destruct (rows (mysql w) !! id) as [a|] eqn:Hrow; [|discriminate].
  intros Hres. assert (a = ad) as -> by (destruct (json_Marshal a); by injection Hres).
  destruct (reachable_keyed w Hreach) as (_ & Hkeyed & _).
  destruct (Hkeyed id ad Hrow) as [Hid Hpos]. split; [done|]. split; [|done].
  split; [done|].
  destruct (Z.lt_ge_cases id (auto_increment (mysql w))) as [|Hge]; [done|].
  destruct (proj1 (reachable_free w Hreach) id Hge) as [Hnone _]. congruence.
Qed.

Lemma listed_ads_are_rows (page limit : Z) (sortBy order : string) (w : World)
    (ads : list Ad) :
  validSortFields sortBy = true →
  order = "asc" ∨ order = "desc" →
  (AdService.GetAllAds page limit sortBy order w).1 = (Some ads, None) →
  ∀ ad, ad ∈ ads → ∃ id, rows (mysql w) !! id = Some ad.
Proof.
  intros Hs Ho. destruct (GetAllAds_valid_run sortBy order Hs Ho) as (c & dir & ->).
  destruct (next_fault (mysql_faults w)); [discriminate|].
  destruct (_ || _); [discriminate|]. intros [= <-].
  intros ad Hin%subseteq_take%subseteq_drop%elem_of_sort_by.
  by apply elem_of_table_scan.
Qed.

(** X24. A deleted ad is not listed: in every world the service can be in,
    after a [DeleteAd id] that succeeded no listing (with a sort field and an
    order the handler lets through) returns an Ad whose id is [id]. *)
Theorem deleted_ad_is_not_listed (w : World) (id page limit : Z) (sortBy order : string)
    (ads : list Ad) :
  reachable w →
  (AdService.DeleteAd id w).1 = None →
  validSortFields sortBy = true →
  order = "asc" ∨ order = "desc" →
  (AdService.GetAllAds page limit sortBy order (AdService.DeleteAd id w).2).1
  = (Some ads, None) →
  ∀ ad, ad ∈ ads → ID ad ≠ id.
Proof.
  intros Hreach Hdel Hs Ho Hlist ad Hin.
  destruct (listed_ads_are_rows _ _ _ _ _ _ Hs Ho Hlist ad Hin) as [i Hrow].
  destruct (reachable_keyed _ (reachable_serve (CallDeleteAd id) w Hreach))
    as (_ & Hkeyed & _).
  cbn [serve] in Hkeyed. destruct (Hkeyed i ad Hrow) as [-> _].
  destruct (DeleteAd_success id w Hdel) as (_ & _ & Hmysql & _).
  rewrite Hmysql in Hrow. cbn [rows] in Hrow. intros ->.
  by rewrite lookup_delete_eq in Hrow.
Qed.

Lemma serve_all_auto_increment (calls : list Call) (w : World) :
  auto_increment (mysql w) ≤ auto_increment (mysql (serve_all calls w)).
Proof.
  unfold serve_all. revert w. induction calls as [|c calls IH]; intros w; [done|].
  cbn [foldl]. etrans; [apply (serve_auto_increment c)|apply IH].
Qed.

Lemma AddAd_success (ad : Ad) (w : World) :
  (AdService.AddAd ad w).1.2 = None →
  ID (AdService.AddAd ad w).1.1 = auto_increment (mysql w) ∧
  auto_increment (mysql (AdService.AddAd ad w).2) = auto_increment (mysql w) + 1.
Proof.
  rewrite AdService_AddAd_run, Repository_AddAd_run. cbv zeta.
  destruct (next_fault (mysql_faults w)); [discriminate|].
  by destruct (next_fault (tail (mysql_faults w))).
Qed.

(** X25. Ids are never reused: of two creates that succeed, the later one
    gets the greater id, whatever calls (deletes included) the service
    served in between. *)
Theorem ids_are_never_reused (w : World) (first second : Ad) (calls : list Call) :
  (AdService.AddAd first w).1.2 = None →
  let w1 := serve_all calls (AdService.AddAd first w).2 in
  (AdService.AddAd second w1).1.2 = None →
  ID (AdService.AddAd first w).1.1 < ID (AdService.AddAd second w1).1.1.
Proof.
  intros [-> Hnext]%AddAd_success w1 [-> _]%AddAd_success.
  pose proof (serve_all_auto_increment calls (AdService.AddAd first w).2) as Hgrow.
  fold w1 in Hgrow. lia.
Qed.

(** X26. An operation on one id leaves the others alone: [GetAdByID],
    [UpdateAd] and [DeleteAd] of [id] change no row other than row [id] and
    no cache key other than the key of [id]; [GetAdByID] changes no row at
    all. *)
Theorem operations_are_local (w : World) (id other : Z) (key : string) (ad : Ad) :
  other ≠ id → key ≠ cache_key id →
  let get := (AdService.GetAdByID id w).2 in
  let upd := (AdService.UpdateAd id ad w).2 in
  let del := (AdService.DeleteAd id w).2 in
  mysql get = mysql w ∧
  (rows (mysql upd) !! other = rows (mysql w) !! other ∧
   rows (mysql del) !! other = rows (mysql w) !! other) ∧
  (redis get !! key = redis w !! key ∧ redis upd !! key = redis w !! key ∧
   redis del !! key = redis w !! key).
Proof.
  intros Hother Hkey. cbv zeta.
  destruct (GetAdByID_backends id w) as [Hget Hget'].
  destruct (UpdateAd_backends id ad w) as [Hupd Hupd'].
  destruct (DeleteAd_backends id w) as [Hdel Hdel'].
  split; [done|]. split; [split|split; [|split]].
  - destruct Hupd as [-> |(old & _ & ->)]; [done|]. by apply lookup_insert_ne.
  - destruct Hdel as [-> | ->]; [done|]. by apply lookup_delete_ne.
  - destruct Hget' as [-> |(a & doc & _ & _ & ->)]; [done|]. by apply lookup_insert_ne.
  - destruct Hupd' as [-> | ->]; [done|]. by apply lookup_delete_ne.
  - destruct Hdel' as [-> | ->]; [done|]. by apply lookup_delete_ne.
Qed.

End reachable_worlds.

(** ** The handlers, beyond the claims *)

Lemma scan_rows_shape (rs : list (list SqlValue)) (ads : list Ad) :
  (∃ l, Repository.scan_rows rs ads = (Some l, None)) ∨
  (∃ err, Repository.scan_rows rs ads = (None, Some err)).
Proof.
  revert ads. induction rs as [|cols rs IH]; intros ads; cbn; [by left; eexists|].
  destruct (sql_DB.Scan_Ad cols); [apply IH|by right; eexists].
Qed.

Lemma GetAllAds_shape (page limit : Z) (sortBy order : string) (w : World) :
  (∃ l, (AdService.GetAllAds page limit sortBy order w).1 = (Some l, None)) ∨
  (∃ err, (AdService.GetAllAds page limit sortBy order w).1 = (None, Some err)).
Proof.
  rewrite AdService_GetAllAds_run, Repository_GetAllAds_run.
  destruct (sql_DB.QueryContext _ _ w).1 as [rs|err]; [|by right; eexists].
  destruct (scan_rows_shape rs []) as [[l ->]|[err ->]]; [left|right]; by eexists.
Qed.

Section responses.
Context `{JSON}.

(** X27. Every response is one of a fixed few.  Whatever the request and the
    world, each handler answers with its success response or with one of its
    own constant error messages under 400, 404 or 500: no text of a backend
    error reaches the client, [AddAd] and [GetAllAds] never answer 404, and a
    listing that succeeds always carries a list, never null. *)
Theorem responses_are_fixed (c : Request) (w : World) :
  (let r := (Handler.GetAdByID c w).1 in
   r = mkResponse StatusBadRequest (H "error" "Invalid ID") ∨
   r = mkResponse StatusNotFound (H "error" "Ad not found") ∨
   r = mkResponse StatusInternalServerError (H "error" "Failed to fetch ad by ID") ∨
   ∃ ad, r = mkResponse StatusOK (JAd ad)) ∧
  (let r := (Handler.AddAd c w).1 in
   r = mkResponse StatusBadRequest (H "error" "Invalid request body") ∨
   r = mkResponse StatusBadRequest (H "error" "Title and description are required") ∨
   r = mkResponse StatusBadRequest (H "error" "Price cannot be zero or negative") ∨
   r = mkResponse StatusInternalServerError (H "error" "Failed to add ad") ∨
   ∃ ad, r = mkResponse StatusCreated (JAd ad)) ∧
  (let r := (Handler.GetAllAds c w).1 in
   r = mkResponse StatusBadRequest
         (H "error" "Invalid page value. Must be a positive integer.") ∨
   r = mkResponse StatusBadRequest
         (H "error" "Invalid limit value. Must be a positive integer.") ∨
   r = mkResponse StatusBadRequest
         (H "error" "Invalid sort_by value. Must be one of 'id', 'title', 'price', 'created_at', 'is_active'.") ∨
   r = mkResponse StatusBadRequest
         (H "error" "Invalid order value. Must be either 'asc' or 'desc'.") ∨
   r = mkResponse StatusInternalServerError (H "error" "Failed to fetch ads") ∨
   ∃ ads, r = mkResponse StatusOK (JAds (Some ads))) ∧
  (let r := (Handler.UpdateAd c w).1 in
   r = mkResponse StatusBadRequest (H "error" "Invalid ad ID") ∨
   r = mkResponse StatusBadRequest (H "error" "Invalid request body") ∨
   r = mkResponse StatusBadRequest (H "error" "Title and description are required") ∨
   r = mkResponse StatusBadRequest (H "error" "Price cannot be zero or negative") ∨
   r = mkResponse StatusNotFound (H "error" "Ad not found") ∨
   r = mkResponse StatusInternalServerError (H "error" "Failed to update ad") ∨
   r = mkResponse StatusOK (H "message" "Ad updated")) ∧
  (let r := (Handler.DeleteAd c w).1 in
   r = mkResponse StatusBadRequest (H "error" "Invalid ad ID") ∨
   r = mkResponse StatusNotFound (H "error" "Ad not found") ∨
   r = mkResponse StatusInternalServerError (H "error" "Failed to delete ad") ∨
   r = mkResponse StatusOK (H "message" "Ad deleted")).
Proof.
  cbv zeta. repeat split.
  - unfold Handler.GetAdByID. destruct (Atoi (Param c "id")) as [id err].
    destruct (not_nil err || (id <=? 0)); [by left|]. unfold_bind.
    destruct (AdService.GetAdByID id w) as [[ad|e] w']; [do 3 right; by eexists|].
    destruct (bool_decide (e = sql_ErrNoRows)); [right; by left|do 2 right; by left].
  - unfold Handler.AddAd. destruct (ShouldBindJSON (body c)) as [ad|e]; [|by left].
    destruct (String.eqb (Title ad) "" || _); [right; by left|].
    destruct (PrimFloat.leb (Price ad) 0); [do 2 right; by left|]. unfold_bind.
    destruct (AdService.AddAd ad w) as [[ad' [e|]] w'];
      [do 3 right; by left|do 4 right; by eexists].
  - unfold Handler.GetAllAds.
    destruct (Atoi (DefaultQuery c "page" "1")) as [page e1].
    destruct (not_nil e1 || (page <=? 0)); [by left|].
    destruct (Atoi (DefaultQuery c "limit" "10")) as [limit e2].
    destruct (not_nil e2 || (limit <=? 0)); [right; by left|].
    destruct (negb (validSortFields _)); [do 2 right; by left|].
    destruct (negb _ && negb _); [do 3 right; by left|]. unfold_bind.
    destruct (GetAllAds_shape page limit (DefaultQuery c "sort_by" "created_at")
                (DefaultQuery c "order" "asc") w) as [[l Hl]|[e He]];
      destruct (AdService.GetAllAds _ _ _ _ w) as [[ads err] w']; cbn [fst] in *;
      simplify_eq; [do 5 right; by eexists|do 4 right; by left].
  - unfold Handler.UpdateAd. destruct (Atoi (Param c "id")) as [id err].
    destruct (not_nil err || (id <=? 0)); [by left|].
    destruct (ShouldBindJSON (body c)) as [ad|e]; [|right; by left].
    destruct (String.eqb (Title ad) "" || _); [do 2 right; by left|].
    destruct (PrimFloat.leb (Price ad) 0); [do 3 right; by left|]. unfold_bind.
    destruct (AdService.UpdateAd id ad w) as [[e|] w']; [|do 6 right; done].
    destruct (errors_Is e ErrAdNotFound); [do 4 right; by left|do 5 right; by left].
  - unfold Handler.DeleteAd. destruct (Atoi (Param c "id")) as [id err].
    destruct (not_nil err || (id <=? 0)); [by left|]. unfold_bind.
    destruct (AdService.DeleteAd id w) as [[e|] w']; [|do 3 right; done].
    destruct (errors_Is e ErrAdNotFound); [right; by left|do 2 right; by left].
Qed.

Lemma assoc_app {V} (key : string) (l l' : list (string * V)) :
  assoc key (l ++ l') = match assoc key l with Some v => Some v | None => assoc key l' end.
Proof.
  induction l as [|[k v] l IH]; [done|]. cbn. by destruct (String.eqb key k).
Qed.

(** X28. A query value that is left out counts as its default: [GetAllAds]
    answers a request as it answers the same request with page=1, limit=10,
    sort_by=created_at and order=asc added after the values it came with, so
    each of the four stands in exactly when the request has no value for it. *)
Theorem listing_defaults (c : Request) (w : World) :
  Handler.GetAllAds c w = Handler.GetAllAds (with_defaults c) w.
Proof.
  assert (∀ key d,
            assoc key [("page", "1"); ("limit", "10"); ("sort_by", "created_at");
                       ("order", "asc")] = Some d →
            DefaultQuery (with_defaults c) key d = DefaultQuery c key d) as Hdefault.
  { intros key d Hd. unfold DefaultQuery, with_defaults. cbn [query_values].
    rewrite assoc_app. destruct (assoc key (query_values c)); [done|]. by rewrite Hd. }
  unfold Handler.GetAllAds. by rewrite !Hdefault.
Qed.

End responses.


(** * The theorems at work on concrete worlds *)

Local Existing Instance Fixture.codec.

Lemma get_survives_cache_failure_witness :
  (AdService.GetAdByID 1 (Fixture.stored [] [Some "i/o timeout"; Some "i/o timeout"])).1
  = Ok Fixture.laptop.
Proof.
  refine (proj1 (get_survives_cache_failure (Fixture.stored [] [Some "i/o timeout"; Some "i/o timeout"])
                   1 Fixture.laptop _ _) _).
  - reflexivity.
  - reflexivity.
  - left. by exists "i/o timeout".
Defined.

Lemma get_not_found_without_hit_witness :
  (AdService.GetAdByID 2 (Fixture.stored_and_cached [] [])).1 = Err sql_ErrNoRows.
Proof.
  pose proof (get_not_found_without_hit (Fixture.stored_and_cached [] []) 2
                ltac:(reflexivity) ltac:(reflexivity)) as Hget.
  exact (proj1 (proj1 Hget)).
Defined.

(** C4, as the spec states it, fails: after a delete whose cache invalidation
    failed, the table has no row 1 and MySQL answers, yet [GetAdByID 1]
    returns the Ad that is still cached. *)
Lemma get_of_deleted_row_served_from_cache :
  let w := Fixture.read_after_failed_invalidation.2 in
  rows (mysql w) !! 1 = None ∧
  next_fault (mysql_faults w) = None ∧
  (AdService.GetAdByID 1 w).1 = Ok Fixture.laptop ∧
  (AdService.GetAdByID 1 w).1 ≠ Err sql_ErrNoRows.
Proof. vm_compute. repeat split; congruence. Qed.

Lemma get_is_cache_aside_witness :
  (AdService.GetAdByID 1 (Fixture.stored_and_cached [] [])).1 = Ok Fixture.laptop ∧
  trace (AdService.GetAdByID 1 (Fixture.stored_and_cached [] [])).2 = [EvRedisGet "ad_1"] ∧
  (AdService.GetAdByID 1 (Fixture.stored [] [])).1 = Ok Fixture.laptop ∧
  redis (AdService.GetAdByID 1 (Fixture.stored [] [])).2 !! "ad_1"
  = Some (Fixture.laptop_json, 300 * Second).
Proof.
  pose proof (get_is_cache_aside (Fixture.stored_and_cached [] []) 1) as Hhit.
  pose proof (get_is_cache_aside (Fixture.stored [] []) 1) as Hmiss.
  hnf in Hhit, Hmiss.
  destruct Hhit as (Hr & Htrace & _). destruct Hmiss as (Hr' & _ & _ & Hredis).
  split; [exact Hr|]. split; [exact Htrace|]. split; [exact Hr'|].
  rewrite Hredis. reflexivity.
Defined.

Lemma mutations_write_store_first_witness :
  (AdService.DeleteAd 1 (Fixture.stored_and_cached [] [Some "i/o timeout"])).1 = None ∧
  store_then_cache (AdService.DeleteAd 1)
    (Fixture.stored_and_cached [] [Some "i/o timeout"]) 1 ∧
  store_then_cache (AdService.UpdateAd 1 Fixture.laptop_v2)
    (Fixture.stored_and_cached [Some "bad connection"] []) 1.
Proof.
  split; [reflexivity|]. split.
  - exact (proj1 (proj2 (mutations_write_store_first
                           (Fixture.stored_and_cached [] [Some "i/o timeout"])
                           1 Fixture.laptop_v2))).
  - exact (proj1 (proj1 (mutations_write_store_first
                           (Fixture.stored_and_cached [Some "bad connection"] [])
                           1 Fixture.laptop_v2))).
Defined.

Lemma create_then_get_witness :
  let w := initial_world Fixture.clock [] [] in
  (AdService.AddAd Fixture.laptop_input w).1.1 = Fixture.laptop ∧
  (AdService.GetAdByID 1 (AdService.AddAd Fixture.laptop_input w).2).1 = Ok Fixture.laptop.
Proof.
  cbv zeta.
  assert (reachable (initial_world Fixture.clock [] [])) as Hreach
    by (apply reachable_start; discriminate).
  destruct (create_then_get (initial_world Fixture.clock [] []) Fixture.laptop_input
              Hreach ltac:(reflexivity)) as (_ & _ & _ & Hget & _).
  split; [reflexivity|]. apply Hget. reflexivity.
Defined.

Lemma update_overwrites_witness :
  rows (mysql (AdService.UpdateAd 1 Fixture.laptop_v2 (Fixture.stored [] [])).2) !! 1 =
    Some (mkAd 1 "Laptop v2" "y" 999 Fixture.clock true).
Proof.
  destruct (update_overwrites (Fixture.stored [] []) 1 Fixture.laptop_v2
              ltac:(reflexivity)) as (old & Hold & Hnew & _).
  rewrite Hnew. vm_compute in Hold. injection Hold as <-. reflexivity.
Defined.

Lemma mutation_results_witness :
  (AdService.UpdateAd 7 Fixture.laptop_v2 (Fixture.stored [] [])).1 = Some ErrAdNotFound ∧
  (AdService.DeleteAd 1 (Fixture.stored [] [])).1 = None.
Proof.
  destruct (mutation_results (Fixture.stored [] []) 7 Fixture.laptop_v2)
    as [(Hzero & _ & _) _].
  destruct (mutation_results (Fixture.stored [] []) 1 Fixture.laptop_v2)
    as [_ (_ & _ & Hsome)].
  split.
  - apply Hzero. eexists. split; reflexivity.
  - apply Hsome. eexists _, 1. repeat split; reflexivity.
Defined.

Lemma handlers_validate_and_map_witness :
  rejects Handler.GetAdByID (mkRequest [("id", "abc")] [] "") (Fixture.stored [] []) ∧
  rejects Handler.DeleteAd (mkRequest [("id", "abc")] [] "") (Fixture.stored [] []) ∧
  rejects Handler.AddAd (mkRequest [] [] Fixture.untitled_body) (Fixture.stored [] []) ∧
  rejects Handler.GetAllAds (mkRequest [] [("sort_by", "description")] "")
    (Fixture.stored [] []) ∧
  status (Handler.GetAdByID (mkRequest [("id", "2")] [] "") (Fixture.stored [] [])).1
  = StatusNotFound.
Proof.
  pose proof (handlers_validate_and_map (mkRequest [("id", "abc")] [] "")
                (Fixture.stored [] [])) as [(Hid & _ & _) _].
  pose proof (handlers_validate_and_map (mkRequest [] [] Fixture.untitled_body)
                (Fixture.stored [] [])) as [(_ & Had & _) _].
  pose proof (handlers_validate_and_map (mkRequest [] [("sort_by", "description")] "")
                (Fixture.stored [] [])) as [(_ & _ & Hlist) _].
  pose proof (handlers_validate_and_map (mkRequest [("id", "2")] [] "")
                (Fixture.stored [] [])) as [_ [_ (Hget & _)]].
  split; [apply Hid; exact I|]. split; [apply Hid; exact I|].
  split; [apply Had; exists Fixture.untitled; split; [reflexivity|by left]|].
  split.
  - apply Hlist. right. left. vm_compute. intros Hin.
    repeat (apply elem_of_cons in Hin as [[=]|Hin]). by apply elem_of_nil in Hin.
  - rewrite (Hget 2); [reflexivity|]. split; [reflexivity|lia].
Defined.

Lemma not_found_has_two_sentinels_witness :
  (AdService.GetAdByID 2 (Fixture.stored [] [])).1 = Err sql_ErrNoRows ∧
  (AdService.UpdateAd 2 Fixture.laptop_v2 (Fixture.stored [] [])).1 = Some ErrAdNotFound ∧
  (AdService.DeleteAd 2 (Fixture.stored [] [])).1 = Some ErrAdNotFound.
Proof.
  destruct (not_found_has_two_sentinels (Fixture.stored [] []) 2 Fixture.laptop_v2
              ltac:(reflexivity) ltac:(reflexivity) ltac:(reflexivity))
    as (Hget & Hupdate & Hdelete & _).
  exact (conj Hget (conj Hupdate Hdelete)).
Defined.

Lemma empty_page_is_an_empty_list_witness :
  (AdService.GetAllAds 1 10 "price" "desc" (initial_world Fixture.clock [] [])).1
  = (Some [], None) ∧
  (AdService.GetAllAds 2 10 "created_at" "asc" (Fixture.stored [] [])).1 = (Some [], None).
Proof.
  destruct (empty_page_is_an_empty_list (initial_world Fixture.clock [] [])
              1 10 "price" "desc") as [Hempty Hanswer].
  destruct (empty_page_is_an_empty_list (Fixture.stored [] []) 2 10 "created_at" "asc")
    as [Hempty' Hanswer'].
  split.
  - apply Hempty, Hanswer; try reflexivity; try (by right); vm_compute; discriminate.
  - apply Hempty', Hanswer'; try reflexivity; try (by left); vm_compute; discriminate.
Defined.

(** ** Further runs *)

(** The scenario of the spec: create, read (miss, then the cache is filled),
    read again (hit, MySQL is not asked), update (the entry is dropped), read
    (miss, the new values). *)
Example laptop_scenario :
  let w0 := initial_world Fixture.clock [] [] in
  let '(created, w1) := AdService.AddAd Fixture.laptop_input w0 in
  let '(first, w2) := AdService.GetAdByID 1 w1 in
  let '(second, w3) := AdService.GetAdByID 1 w2 in
  let '(updated, w4) := AdService.UpdateAd 1 Fixture.laptop_v2 w3 in
  let '(third, w5) := AdService.GetAdByID 1 w4 in
  created = (Fixture.laptop, None) ∧
  first = Ok Fixture.laptop ∧ redis w2 !! "ad_1" = Some (Fixture.laptop_json, 5 * Minute) ∧
  second = Ok Fixture.laptop ∧ new_events w2 w3 = [EvRedisGet "ad_1"] ∧
  updated = None ∧ redis w4 !! "ad_1" = None ∧
  third = Ok (mkAd 1 "Laptop v2" "y" 999 Fixture.clock true).
Proof. vm_compute. repeat split; reflexivity. Qed.

(** An update that repeats the stored values changes no row, and is
    reported as a missing ad. *)
Example update_without_change :
  (AdService.UpdateAd 1 Fixture.laptop (Fixture.stored [] [])).1 = Some ErrAdNotFound.
Proof. reflexivity. Qed.

(** The handler passes the empty list on as such. *)
Example empty_listing_response :
  (Handler.GetAllAds (mkRequest [] [("page", "3")] "") (Fixture.stored [] [])).1
  = mkResponse StatusOK (JAds (Some [])).
Proof. reflexivity. Qed.

(** A page whose offset does not fit an int wraps to a negative OFFSET, which
    the server refuses. *)
Example offset_overflow :
  (AdService.GetAllAds 9223372036854775807 10 "id" "asc"
     (initial_world Fixture.clock [] [])).1 = (None, Some syntax_error).
Proof. reflexivity. Qed.

(** ** Beyond the claims *)

Lemma cache_get_after_set_witness :
  (Cache.Get "ad_1" (Cache.Set_ "ad_1" Fixture.laptop_json (5 * Minute)
                       (Fixture.stored [] [])).2).1
  = (Fixture.laptop_json, None).
Proof.
  exact (proj2 (cache_get_after_set "ad_1" Fixture.laptop_json (5 * Minute)
                  (Fixture.stored [] []) ltac:(reflexivity) ltac:(reflexivity))).
Defined.

Lemma retry_gives_up_after_attempts_witness :
  (retry Ping 3 (2 * Second) Sample.slow_redis).1 = None ∧
  (retry Ping 3 (2 * Second) Sample.no_redis).1 = Some (backend_error "i/o timeout").
Proof.
  destruct (retry_gives_up_after_attempts 3 (2 * Second) Sample.slow_redis ltac:(done))
    as [Hnil _].
  destruct (retry_gives_up_after_attempts 3 (2 * Second) Sample.no_redis ltac:(done))
    as [_ Herr].
  split.
  - apply Hnil. reflexivity.
  - destruct Herr as (msg & Hmsg & ->); [discriminate|]. by injection Hmsg as <-.
Defined.

Lemma retry_cost_witness :
  slept (retry Ping 3 (2 * Second) Sample.slow_redis).2 = 4 * Second ∧
  slept (retry Ping 3 (2 * Second) Sample.no_redis).2 = 4 * Second ∧
  ping_faults (retry Ping 3 (2 * Second) Sample.no_redis).2 = [Some "i/o timeout"].
Proof.
  destruct (retry_cost 3 (2 * Second) Sample.slow_redis ltac:(done)) as [_ Hslow].
  destruct (retry_cost 3 (2 * Second) Sample.no_redis ltac:(done)) as [Hpings Hnone].
  split; [exact Hslow|]. split; [exact Hnone|exact Hpings].
Defined.

Lemma NewCache_hides_the_ping_error_witness :
  (NewCache Sample.no_redis).1
  = Fatalf "Could not connect to Redis after multiple attempts: <nil>".
Proof.
  refine (proj1 (NewCache_hides_the_ping_error Sample.no_redis Sample.cfg
                   ltac:(reflexivity) ltac:(reflexivity) _)).
  cbn. lia.
Defined.

Lemma create_may_fail_after_insert_witness :
  let w := initial_world Fixture.clock [None; Some "invalid connection"] [] in
  (AdService.AddAd Fixture.laptop_input w).1.2 ≠ None ∧
  rows (mysql (AdService.AddAd Fixture.laptop_input w).2) !! 1 = Some Fixture.laptop.
Proof.
  cbv zeta.
  destruct (create_may_fail_after_insert Fixture.laptop_input
              (initial_world Fixture.clock [None; Some "invalid connection"] [])
              "invalid connection" ltac:(reflexivity) ltac:(reflexivity)) as (Hres & Hrow & _).
  split; [by rewrite Hres|exact Hrow].
Defined.

Lemma created_response_is_the_stored_row_witness :
  (Handler.AddAd (mkRequest [] [] Fixture.laptop_body)
     (initial_world Fixture.clock [] [])).1
  = mkResponse StatusCreated (JAd Fixture.laptop).
Proof.
  refine (proj1 (created_response_is_the_stored_row
                   (mkRequest [] [] Fixture.laptop_body) Fixture.laptop_input
                   (initial_world Fixture.clock [] []) _ ltac:(reflexivity) ltac:(reflexivity))).
  repeat split; discriminate.
Defined.

Lemma listing_is_bounded_witness :
  (AdService.GetAllAds 1 10 "price" "desc" (Fixture.stored [] [])).1
  = (Some [Fixture.laptop], None) ∧
  Z.of_nat (length [Fixture.laptop]) ≤ 10.
Proof.
  split; [reflexivity|].
  refine (proj1 (listing_is_bounded 1 10 "price" "desc" (Fixture.stored [] [])
                   [Fixture.laptop] ltac:(reflexivity) _ ltac:(reflexivity))).
  by right.
Defined.


Lemma read_after_update_witness :
  (AdService.GetAdByID 1
     (AdService.UpdateAd 1 Fixture.laptop_v2 (Fixture.stored_and_cached [] [])).2).1
  = Ok (mkAd 1 "Laptop v2" "y" 999 Fixture.clock true).
Proof.
  destruct (read_after_update 1 Fixture.laptop_v2 (Fixture.stored_and_cached [] [])
              ltac:(reflexivity) ltac:(reflexivity) ltac:(reflexivity)) as (old & Hold & Hread).
  vm_compute in Hold. injection Hold as <-. exact Hread.
Defined.

Lemma failed_invalidation_serves_the_old_entry_witness :
  (AdService.GetAdByID 1
     (AdService.UpdateAd 1 Fixture.laptop_v2 Sample.cached_redis_down_once).2).1
  = Ok Fixture.laptop ∧
  (AdService.GetAdByID 1 (AdService.DeleteAd 1 Sample.cached_redis_down_once).2).1
  = Ok Fixture.laptop.
Proof.
  destruct (failed_invalidation_serves_the_old_entry 1 Fixture.laptop_v2 Fixture.laptop
              Sample.cached_redis_down_once Fixture.laptop_json "i/o timeout"
              (5 * Minute) ltac:(reflexivity) ltac:(reflexivity) ltac:(reflexivity) ltac:(reflexivity)) as [Hupd Hdel].
  split; [exact (proj1 (Hupd ltac:(reflexivity)))|exact (proj1 (Hdel ltac:(reflexivity)))].
Defined.

Lemma read_after_delete_witness :
  (AdService.GetAdByID 1 (AdService.DeleteAd 1 (Fixture.stored_and_cached [] [])).2).1
  = Err sql_ErrNoRows.
Proof.
  exact (proj2 (read_after_delete 1 (Fixture.stored_and_cached [] [])
                  ltac:(reflexivity) ltac:(reflexivity) ltac:(reflexivity))).
Defined.

Lemma mutation_after_delete_witness :
  (AdService.DeleteAd 1 (AdService.DeleteAd 1 (Fixture.stored [] [])).2).1
  = Some ErrAdNotFound.
Proof.
  exact (proj1 (mutation_after_delete 1 Fixture.laptop_v2 (Fixture.stored [] [])
                  ltac:(reflexivity) ltac:(reflexivity))).
Defined.

Lemma update_without_effect_is_not_found_witness :
  (AdService.UpdateAd 1 Fixture.laptop_v2
     (AdService.UpdateAd 1 Fixture.laptop_v2 (Fixture.stored [] [])).2).1
  = Some ErrAdNotFound.
Proof.
  exact (proj2 (update_without_effect_is_not_found 1 Fixture.laptop_v2
                  (Fixture.stored [] [])) ltac:(reflexivity) ltac:(reflexivity) ltac:(reflexivity)).
Defined.

Lemma second_read_is_served_from_cache_witness :
  let w := Fixture.stored [] [] in
  (AdService.GetAdByID 1 (AdService.GetAdByID 1 w).2).1 = Ok Fixture.laptop ∧
  new_events (AdService.GetAdByID 1 w).2
    (AdService.GetAdByID 1 (AdService.GetAdByID 1 w).2).2 = [EvRedisGet "ad_1"].
Proof.
  cbv zeta.
  destruct (second_read_is_served_from_cache 1 Fixture.laptop Fixture.laptop_json
              (Fixture.stored [] []) ltac:(reflexivity) ltac:(reflexivity) ltac:(reflexivity) ltac:(reflexivity) ltac:(reflexivity) ltac:(reflexivity)
              ltac:(reflexivity)) as (_ & Hsecond & Htrace & _).
  split; [exact Hsecond|]. unfold new_events. rewrite Htrace.
  by rewrite drop_app_length.
Defined.

Lemma sample_is_reachable : reachable Sample.after_first_read.
Proof.
  unfold Sample.after_first_read. do 2 apply reachable_serve.
  apply reachable_start. discriminate.
Qed.

Lemma cache_entries_are_marshalled_ads_witness :
  redis Sample.after_first_read !! "ad_1" = Some (Fixture.laptop_json, 5 * Minute) ∧
  ∃ ad, "ad_1" = "ad_" +:+ Itoa (ID ad) ∧ json_Marshal ad = Ok Fixture.laptop_json.
Proof.
  split; [reflexivity|].
  destruct (cache_entries_are_marshalled_ads Sample.after_first_read "ad_1"
              Fixture.laptop_json (5 * Minute) sample_is_reachable ltac:(reflexivity))
    as (_ & _ & ad & Hkey & _ & Hdoc).
  by exists ad.
Defined.

Lemma read_returns_the_id_asked_for_witness :
  (AdService.GetAdByID 1
     (with_faults [] [Some "i/o timeout"] Sample.after_first_read)).1 = Ok Fixture.laptop ∧
  ID Fixture.laptop = 1.
Proof.
  split; [reflexivity|].
  refine (proj1 (read_returns_the_id_asked_for
                   (with_faults [] [Some "i/o timeout"] Sample.after_first_read)
                   1 Fixture.laptop _ ltac:(reflexivity) ltac:(reflexivity))).
  apply reachable_faults, sample_is_reachable.
Defined.

Lemma deleted_ad_is_not_listed_witness :
  (AdService.GetAllAds 1 10 "id" "asc" (AdService.DeleteAd 1 Sample.two_ads).2).1
  = (Some [Sample.second_ad], None) ∧
  ID Sample.second_ad ≠ 1.
Proof.
  split; [reflexivity|].
  refine (deleted_ad_is_not_listed Sample.two_ads 1 1 10 "id" "asc" [Sample.second_ad]
            _ ltac:(reflexivity) ltac:(reflexivity) _ ltac:(reflexivity)
            Sample.second_ad _).
  - apply reachable_serve, sample_is_reachable.
  - by left.
  - apply list_elem_of_In. by left.
Defined.

Lemma ids_are_never_reused_witness :
  let w := initial_world Fixture.clock [] [] in
  ID (AdService.AddAd Fixture.laptop_input w).1.1 <
  ID (AdService.AddAd Fixture.laptop_v2
        (serve_all [CallDeleteAd 1] (AdService.AddAd Fixture.laptop_input w).2)).1.1.
Proof.
  cbv zeta.
  exact (ids_are_never_reused (initial_world Fixture.clock [] []) Fixture.laptop_input
           Fixture.laptop_v2 [CallDeleteAd 1] ltac:(reflexivity) ltac:(reflexivity)).
Defined.

Lemma operations_are_local_witness :
  rows (mysql (AdService.DeleteAd 2 (Fixture.stored_and_cached [] [])).2) !! 1
  = Some Fixture.laptop ∧
  redis (AdService.DeleteAd 2 (Fixture.stored_and_cached [] [])).2 !! "ad_1"
  = Some (Fixture.laptop_json, 5 * Minute).
Proof.
  destruct (operations_are_local (Fixture.stored_and_cached [] []) 2 1 "ad_1"
              Fixture.laptop_v2 ltac:(discriminate) ltac:(discriminate))
    as (_ & [_ Hrow] & _ & _ & Hkey).
  split; [etrans; [exact Hrow|reflexivity]|etrans; [exact Hkey|reflexivity]].
Defined.

